(** * Thumbnail resizer: a shallow embedding of [lib/ThumbnailingBucket.resizer.ts]

    The Lambda handler reads S3 upload notifications, fetches each object,
    produces three square thumbnails with [sharp], writes them to the
    destination bucket and finally writes a JSON manifest.

    JavaScript strings are sequences of UTF-16 code units; they are modelled
    as [list N].  The external services (S3, sharp) are oracles of an
    environment record, [await]/[throw] are an error monad that also collects
    the trace of effects, in program order. *)

From Stdlib Require Import List NArith ZArith Arith Bool Lia String Ascii
  DecimalString.
Import ListNotations.

Local Open Scope N_scope.
Local Open Scope list_scope.

(** ** JavaScript strings *)

Definition jsstring := list N.

(** Embedding of an ASCII literal, one code unit per character. *)
Fixpoint str (s : string) : jsstring :=
  match s with
  | EmptyString => []
  | String a s' => N_of_ascii a :: str s'
  end.

Definition ch (a : ascii) : N := N_of_ascii a.

(** [Number.prototype.toString] on the non-negative integers the handler
    formats (the sizes): plain decimal digits. *)
Definition Number_toString (n : N) : jsstring :=
  str (NilZero.string_of_uint (N.to_uint n)).

(** ** Regular expressions: the fragment used by the handler

    [.] matches every code unit except the four line terminators (the
    patterns carry no [s] flag); [x+] is greedy, [x+?] is lazy.  Both
    quantifiers are written as backtracking matchers in continuation
    passing style, as in the ECMAScript semantics: the continuation [k]
    receives the text consumed by the quantified atom and the remaining
    input, and answers [None] to ask for backtracking. *)

Definition isLineTerminator (c : N) : bool :=
  (c =? 10) || (c =? 13) || (c =? 8232) || (c =? 8233).

Definition re_dot (c : N) : bool := negb (isLineTerminator c).

Fixpoint greedy_plus {A} (p : N -> bool) (s : jsstring)
         (k : jsstring -> jsstring -> option A) : option A :=
  match s with
  | [] => None
  | c :: s' =>
      if p c then
        match greedy_plus p s' (fun m rest => k (c :: m) rest) with
        | Some r => Some r
        | None => k [c] s'
        end
      else None
  end.

Fixpoint lazy_plus {A} (p : N -> bool) (s : jsstring)
         (k : jsstring -> jsstring -> option A) : option A :=
  match s with
  | [] => None
  | c :: s' =>
      if p c then
        match k [c] s' with
        | Some r => Some r
        | None => lazy_plus p s' (fun m rest => k (c :: m) rest)
        end
      else None
  end.

(** The pattern [/^(.+)\.(.+?)$/] tried at start index [i] of the input,
    [s] being the input from that index on.  [^] holds at index 0 only and
    [$] at the end of the input only (no [m] flag).  The result is the pair
    of the two capture groups. *)
Definition pathParts_pattern (i : nat) (s : jsstring)
  : option (jsstring * jsstring) :=
  if Nat.eqb i 0 then
    greedy_plus re_dot s (fun base rest =>
      match rest with
      | c :: rest' =>
          if c =? ch "." then
            lazy_plus re_dot rest' (fun ext rest'' =>
              match rest'' with
              | [] => Some (base, ext)
              | _ :: _ => None
              end)
          else None
      | [] => None
      end)
  else None.

(** [RegExp.prototype.exec] without the [g] and [y] flags: the pattern is
    tried at every start index from 0 up to the length of the input. *)
Fixpoint exec_from (i : nat) (s : jsstring) : option (jsstring * jsstring) :=
  match pathParts_pattern i s with
  | Some r => Some r
  | None =>
      match s with
      | [] => None
      | _ :: s' => exec_from (S i) s'
      end
  end.

(** [pathParts]: extracts the extension from a path and returns
    (path without extension, extension). *)
Definition pathParts (name : jsstring) : jsstring * jsstring :=
  match exec_from 0 name with
  | None => (name, [])
  | Some (base, ext) => (base, ext)
  end.

(** ** Errors and results *)

Inductive Error :=
| URIError                      (* thrown by decodeURIComponent *)
| S3Error (code : jsstring)     (* a rejected S3 request *)
| SharpError (msg : jsstring).  (* a rejected sharp pipeline *)

Inductive Result (A : Type) :=
| Ok (a : A)
| Err (e : Error).
Arguments Ok {A} a.
Arguments Err {A} e.

(** ** [String.prototype.replace] with a global single-character pattern

    [s.replace(/\+/g, ' ')]: the input is scanned from left to right, every
    match of the pattern is replaced, the text between matches is copied. *)
Fixpoint replace_global (pat : N -> bool) (by_ : jsstring) (s : jsstring)
  : jsstring :=
  match s with
  | [] => []
  | c :: s' =>
      if pat c then by_ ++ replace_global pat by_ s'
      else c :: replace_global pat by_ s'
  end.

Definition replace_plus (s : jsstring) : jsstring :=
  replace_global (fun c => c =? ch "+") (str " ") s.

(** ** [decodeURIComponent] (ECMA-262, abstract operation Decode with an
    empty reserved set) *)

Definition hexValue (c : N) : option N :=
  if (48 <=? c) && (c <=? 57) then Some (c - 48)
  else if (65 <=? c) && (c <=? 70) then Some (c - 55)
  else if (97 <=? c) && (c <=? 102) then Some (c - 87)
  else None.

(** Reads the two hexadecimal digits that follow a [%]; fails when fewer
    than two code units are left or one of them is not a digit. *)
Definition readHex2 (s : jsstring) : option (N * jsstring) :=
  match s with
  | h :: l :: rest =>
      match hexValue h, hexValue l with
      | Some hv, Some lv => Some (16 * hv + lv, rest)
      | _, _ => None
      end
  | _ => None
  end.

(** The number of leading 1 bits of an octet. *)
Definition leadingOnes (B : N) : nat :=
  if B <? 128 then 0%nat
  else if B <? 192 then 1%nat
  else if B <? 224 then 2%nat
  else if B <? 240 then 3%nat
  else if B <? 248 then 4%nat
  else 5%nat.

(** Reads [j] further escapes [%XX], the continuation octets. *)
Fixpoint readOctets (j : nat) (s : jsstring) : option (list N) :=
  match j with
  | O => Some []
  | S j' =>
      match s with
      | c :: s1 =>
          if c =? ch "%" then
            match readHex2 s1 with
            | Some (B, s2) =>
                match readOctets j' s2 with
                | Some Bs => Some (B :: Bs)
                | None => None
                end
            | None => None
            end
          else None
      | [] => None
      end
  end.

Definition isContinuation (B : N) : bool := (128 <=? B) && (B <? 192).

(** The code point of a well-formed UTF-8 sequence of two to four octets:
    continuation octets are of the form 10xxxxxx, the encoding is the
    shortest one, and the code point is neither a surrogate nor above
    U+10FFFF. *)
Definition utf8CodePoint (octets : list N) : option N :=
  match octets with
  | [B0; B1] =>
      let V := (B0 - 192) * 64 + (B1 - 128) in
      if isContinuation B1 && (128 <=? V) then Some V else None
  | [B0; B1; B2] =>
      let V := (B0 - 224) * 4096 + (B1 - 128) * 64 + (B2 - 128) in
      if isContinuation B1 && isContinuation B2 && (2048 <=? V)
         && negb ((55296 <=? V) && (V <=? 57343))
      then Some V else None
  | [B0; B1; B2; B3] =>
      let V := (B0 - 240) * 262144 + (B1 - 128) * 4096
               + (B2 - 128) * 64 + (B3 - 128) in
      if isContinuation B1 && isContinuation B2 && isContinuation B3
         && (65536 <=? V) && (V <=? 1114111)
      then Some V else None
  | _ => None
  end.

Definition utf16Encode (V : N) : jsstring :=
  if V <? 65536 then [V]
  else [55296 + (V - 65536) / 1024; 56320 + (V - 65536) mod 1024].

Definition mapResult {A B} (f : A -> B) (r : Result A) : Result B :=
  match r with
  | Ok a => Ok (f a)
  | Err e => Err e
  end.

(** The loop of Decode over the index [k] of the input.  [skip] is the
    number of code units after the current one that an escape handled
    earlier has already consumed (the steps [k := k + 2] of the
    algorithm), so that the recursion is on the input itself. *)
Fixpoint Decode (skip : nat) (s : jsstring) : Result jsstring :=
  match s with
  | [] => Ok []
  | C :: s1 =>
      match skip with
      | S skip' => Decode skip' s1
      | O =>
          if C =? ch "%" then
            match readHex2 s1 with
            | None => Err URIError
            | Some (B, s2) =>
                match leadingOnes B with
                | 0%nat => mapResult (cons B) (Decode 2 s1)
                | 1%nat => Err URIError
                | S (S (S (S (S _)))) => Err URIError
                | S j =>
                    match readOctets j s2 with
                    | None => Err URIError
                    | Some Bs =>
                        match utf8CodePoint (B :: Bs) with
                        | None => Err URIError
                        | Some V =>
                            mapResult (app (utf16Encode V))
                                      (Decode (2 + 3 * j) s1)
                        end
                    end
                end
            end
          else mapResult (cons C) (Decode 0 s1)
      end
  end.

Definition decodeURIComponent (s : jsstring) : Result jsstring := Decode 0 s.

(** The key of the uploaded object, as the handler computes it:
    [decodeURIComponent(s3Event.s3.object.key.replace(/\+/g, ' '))]. *)
Definition decodeKey (raw : jsstring) : Result jsstring :=
  decodeURIComponent (replace_plus raw).

(** ** [JSON.stringify] *)

#[warnings="-register-all"] Inductive JSON :=
| JNumber (n : N)
| JString (s : jsstring)
| JArray (elements : list JSON)
| JObject (properties : list (jsstring * JSON)).

Definition hexDigit (d : N) : N := if d <? 10 then 48 + d else 87 + d.

(** [\uXXXX] with four lower-case hexadecimal digits. *)
Definition UnicodeEscape (c : N) : jsstring :=
  str "\u" ++ [hexDigit (c / 4096 mod 16); hexDigit (c / 256 mod 16);
               hexDigit (c / 16 mod 16); hexDigit (c mod 16)].

Definition isLeadingSurrogate (c : N) : bool := (55296 <=? c) && (c <=? 56319).
Definition isTrailingSurrogate (c : N) : bool := (56320 <=? c) && (c <=? 57343).

(** The body of QuoteJSONString, over the code points of the string: a
    surrogate pair is copied, a lone surrogate and a control character are
    escaped.  [paired] tells that the current code unit is the second half
    of a pair whose first half was just copied. *)
Fixpoint quoteChars (paired : bool) (s : jsstring) : jsstring :=
  match s with
  | [] => []
  | c :: s' =>
      if paired then c :: quoteChars false s'
      else if c =? 8 then str "\b" ++ quoteChars false s'
      else if c =? 9 then str "\t" ++ quoteChars false s'
      else if c =? 10 then str "\n" ++ quoteChars false s'
      else if c =? 12 then str "\f" ++ quoteChars false s'
      else if c =? 13 then str "\r" ++ quoteChars false s'
      else if c =? 34 then [92; 34] ++ quoteChars false s'
      else if c =? 92 then [92; 92] ++ quoteChars false s'
      else if c <? 32 then UnicodeEscape c ++ quoteChars false s'
      else if isLeadingSurrogate c then
        match s' with
        | d :: _ =>
            if isTrailingSurrogate d then c :: quoteChars true s'
            else UnicodeEscape c ++ quoteChars false s'
        | [] => UnicodeEscape c ++ quoteChars false s'
        end
      else if isTrailingSurrogate c then UnicodeEscape c ++ quoteChars false s'
      else c :: quoteChars false s'
  end.

Definition QuoteJSONString (s : jsstring) : jsstring :=
  [34] ++ quoteChars false s ++ [34].

Fixpoint join (sep : jsstring) (l : list jsstring) : jsstring :=
  match l with
  | [] => []
  | [x] => x
  | x :: l' => x ++ sep ++ join sep l'
  end.

(** [JSON.stringify(value)] without replacer and indentation. *)
Fixpoint JSON_stringify (v : JSON) : jsstring :=
  match v with
  | JNumber n => Number_toString n
  | JString s => QuoteJSONString s
  | JArray l => str "[" ++ join (str ",") (map JSON_stringify l) ++ str "]"
  | JObject ps =>
      str "{"
      ++ join (str ",")
           (map (fun p => QuoteJSONString (fst p) ++ str ":"
                          ++ JSON_stringify (snd p)) ps)
      ++ str "}"
  end.

(** ** The invocation input (aws-lambda's [S3Event]) *)

Record S3Bucket := { bucket_name : jsstring }.
Record S3Object := { object_key : jsstring }.
Record S3Entity := { bucket : S3Bucket; object : S3Object }.
Record S3EventRecord := { s3 : S3Entity }.
Record S3Event := { Records : list S3EventRecord }.

(** ** Requests, responses and the trace of effects *)

Definition Buffer := list N.

Record GetObjectRequest := { get_Bucket : jsstring; get_Key : jsstring }.

Inductive Body :=
| BodyBuffer (data : Buffer)
| BodyString (text : jsstring).

(** [Bucket] is [None] when the handler passes [undefined]; [ContentType]
    is [None] when the request carries no such parameter. *)
Record PutObjectRequest := {
  put_Bucket : option jsstring;
  put_Key : jsstring;
  put_Body : Body;
  put_ContentType : option jsstring
}.

(** [sharp(...).resize(...).toBuffer({ resolveWithObject: true })] resolves
    with the encoded image and [info], of which the handler reads the
    format. *)
Record SharpOutput := { out_data : Buffer; out_info_format : jsstring }.

Inductive LogMessage :=
| LogEvent (event : S3Event)   (* console.log(JSON.stringify(event)) *)
| LogText (text : jsstring).

Inductive Event :=
| EvLog (m : LogMessage)
| EvGetObject (req : GetObjectRequest) (res : Result Buffer)
| EvResize (input : Buffer) (size : N) (res : Result SharpOutput)
| EvPutObject (req : PutObjectRequest) (res : Result unit).

(** The services the handler awaits.  Each answer may depend on everything
    that happened before in the invocation. *)
Record Env := {
  s3_getObject : list Event -> GetObjectRequest -> Result Buffer;
  sharp_resize : list Event -> Buffer -> N -> Result SharpOutput;
  s3_putObject : list Event -> PutObjectRequest -> Result unit
}.

(** ** The monad of the handler

    A computation receives the history of the invocation and returns its
    result with the events it added, in program order.  A thrown error
    (a rejected awaited promise) ends the computation: the handler has no
    [try]. *)

Definition M (A : Type) := list Event -> Result A * list Event.

Definition ret {A} (a : A) : M A := fun _ => (Ok a, []).

Definition bind {A B} (m : M A) (f : A -> M B) : M B :=
  fun h =>
    match m h with
    | (Ok a, es) =>
        match f a (h ++ es) with
        | (r, es') => (r, es ++ es')
        end
    | (Err e, es) => (Err e, es)
    end.

Notation "x <- m ;; f" := (bind m (fun x => f))
  (at level 61, m at next level, right associativity).
Notation "m ;;; f" := (bind m (fun _ => f))
  (at level 61, right associativity).

Definition liftResult {A} (r : Result A) : M A := fun _ => (r, []).

Definition console_log (m : LogMessage) : M unit :=
  fun _ => (Ok tt, [EvLog m]).

Definition getObject (env : Env) (req : GetObjectRequest) : M Buffer :=
  fun h => let r := s3_getObject env h req in (r, [EvGetObject req r]).

Definition resize (env : Env) (input : Buffer) (size : N) : M SharpOutput :=
  fun h => let r := sharp_resize env h input size in
           (r, [EvResize input size r]).

Definition putObject (env : Env) (req : PutObjectRequest) : M unit :=
  fun h => let r := s3_putObject env h req in (r, [EvPutObject req r]).

(** [for (const x of xs) { body }] *)
Fixpoint forOf {A} (xs : list A) (body : A -> M unit) : M unit :=
  match xs with
  | [] => ret tt
  | x :: xs' => body x ;;; forOf xs' body
  end.

(** [for (let x of xs) { ... list.push(...) }]: a loop that carries the
    array it fills. *)
Fixpoint forOfPush {A B} (xs : list A) (body : A -> M B) (acc : list B)
  : M (list B) :=
  match xs with
  | [] => ret acc
  | x :: xs' => b <- body x ;; forOfPush xs' body (acc ++ [b])
  end.

(** ** The handler *)

(** A value of [process.env] inside a template literal: [undefined] is
    printed as such. *)
Definition templateString (v : option jsstring) : jsstring :=
  match v with
  | Some s => s
  | None => str "undefined"
  end.

Definition sizes : list N := [50; 100; 200].

Definition destKeyOf (base : jsstring) (size : N) (format : jsstring)
  : jsstring :=
  base ++ str "-" ++ Number_toString size ++ str "x" ++ Number_toString size
       ++ str "." ++ format.

Definition urlOf (destBucket : option jsstring) (destKey : jsstring)
  : jsstring :=
  str "https://" ++ templateString destBucket ++ str ".s3.amazonaws.com/"
                 ++ destKey.

Definition manifestEntry (destBucket : option jsstring) (destKey : jsstring)
           (size : N) : JSON :=
  JObject [(str "key", JString destKey);
           (str "url", JString (urlOf destBucket destKey));
           (str "width", JNumber size);
           (str "height", JNumber size)].

(** The body of the loop over the sizes. *)
Definition makeVariant (env : Env) (destBucket : option jsstring)
           (key base : jsstring) (body : Buffer) (size : N) : M JSON :=
  out <- resize env body size ;;
  let destKey := destKeyOf base size (out_info_format out) in
  console_log (LogText (key ++ str ": Creating " ++ destKey)) ;;;
  putObject env {| put_Bucket := destBucket;
                   put_Key := destKey;
                   put_Body := BodyBuffer (out_data out);
                   put_ContentType := None |} ;;;
  ret (manifestEntry destBucket destKey size).

(** The body of the loop over [event.Records]. *)
Definition processRecord (env : Env) (destBucket : option jsstring)
           (s3Event : S3EventRecord) : M unit :=
  key <- liftResult (decodeKey (object_key (object (s3 s3Event)))) ;;
  obj <- getObject env {| get_Bucket := bucket_name (bucket (s3 s3Event));
                          get_Key := key |} ;;
  let (base, ext) := pathParts key in
  list <- forOfPush sizes (makeVariant env destBucket key base obj) [] ;;
  console_log (LogText (key ++ str ": Creating thumbnails.json")) ;;;
  putObject env {| put_Bucket := destBucket;
                   put_Key := key ++ str ".thumbnails.json";
                   put_Body := BodyString (JSON_stringify (JArray list));
                   put_ContentType := Some (str "application/json") |}.

(** [handler]; [DEST_BUCKET] is [process.env.DEST_BUCKET], [None] when the
    variable is not set. *)
Definition handler (env : Env) (DEST_BUCKET : option jsstring)
           (event : S3Event) : M unit :=
  let destBucket := DEST_BUCKET in
  console_log (LogEvent event) ;;;
  forOf (Records event) (processRecord env destBucket).

(** * Observations on keys and traces, used to state the properties *)

Definition dot : N := ch ".".

(** What follows the first group of the pattern: [\.(.+?)$]. *)
Definition afterBase (base rest : jsstring) : option (jsstring * jsstring) :=
  match rest with
  | c :: rest' =>
      if c =? ch "." then
        lazy_plus re_dot rest' (fun ext rest'' =>
          match rest'' with
          | [] => Some (base, ext)
          | _ :: _ => None
          end)
      else None
  | [] => None
  end.

(** The effect of [replace(/\+/g, ' ')] on one code unit. *)
Definition plusToSpace (c : N) : N := if c =? ch "+" then ch " " else c.

(** The other order of the two decoding steps: percent-decoding first, the
    substitution of [+] on its result. *)
Definition percentThenPlus (raw : jsstring) : Result jsstring :=
  mapResult replace_plus (decodeURIComponent raw).

(** A raw key cut into plain characters, [+] signs and escapes [%hl] of
    ASCII characters. *)
Inductive KeyToken :=
| TChar (c : N)
| TPlus
| TEscape (h l : N).

Definition tokenText (t : KeyToken) : jsstring :=
  match t with
  | TChar c => [c]
  | TPlus => [ch "+"]
  | TEscape h l => [ch "%"; h; l]
  end.

Definition tokenOk (t : KeyToken) : bool :=
  match t with
  | TChar c => negb (c =? ch "%") && negb (c =? ch "+")
  | TPlus => true
  | TEscape h l =>
      match hexValue h, hexValue l with
      | Some hv, Some lv => 16 * hv + lv <? 128
      | _, _ => false
      end
  end.

Definition tokenValue (t : KeyToken) : N :=
  match t with
  | TChar c => c
  | TPlus => ch " "
  | TEscape h l =>
      match hexValue h, hexValue l with
      | Some hv, Some lv => 16 * hv + lv
      | _, _ => 0
      end
  end.

Definition rawKey (r : S3EventRecord) : jsstring := object_key (object (s3 r)).

Definition fetchRequest (r : S3EventRecord) (key : jsstring)
  : GetObjectRequest :=
  {| get_Bucket := bucket_name (bucket (s3 r)); get_Key := key |}.

(** The error an event ended with, if any. *)
Definition eventError (ev : Event) : option Error :=
  match ev with
  | EvLog _ => None
  | EvGetObject _ (Err e) => Some e
  | EvResize _ _ (Err e) => Some e
  | EvPutObject _ (Err e) => Some e
  | _ => None
  end.

(** The write requests of a trace, in order, with their outcome. *)
Fixpoint putRequests (evs : list Event)
  : list (PutObjectRequest * Result unit) :=
  match evs with
  | [] => []
  | EvPutObject req res :: evs' => (req, res) :: putRequests evs'
  | _ :: evs' => putRequests evs'
  end.

(** The handler writes a variant without a content type and the manifest
    with one. *)
Definition isVariantWrite (req : PutObjectRequest) : bool :=
  match put_ContentType req with
  | None => true
  | Some _ => false
  end.

Definition variantWrites (evs : list Event) : list PutObjectRequest :=
  filter isVariantWrite (map fst (putRequests evs)).

Definition manifestWrites (evs : list Event) : list PutObjectRequest :=
  filter (fun req => negb (isVariantWrite req)) (map fst (putRequests evs)).

(** The resizes of a trace that produced an image, with their size. *)
Fixpoint resizeOutputs (evs : list Event) : list (N * SharpOutput) :=
  match evs with
  | [] => []
  | EvResize _ size (Ok out) :: evs' => (size, out) :: resizeOutputs evs'
  | _ :: evs' => resizeOutputs evs'
  end.

Definition variantPut (destBucket : option jsstring) (base : jsstring)
           (so : N * SharpOutput) : PutObjectRequest :=
  {| put_Bucket := destBucket;
     put_Key := destKeyOf base (fst so) (out_info_format (snd so));
     put_Body := BodyBuffer (out_data (snd so));
     put_ContentType := None |}.

(** The three events of one turn of the loop over the sizes whose resize
    succeeded; [res] is the outcome of the write. *)
Definition variantEvents (destBucket : option jsstring) (key base : jsstring)
           (body : Buffer) (res : Result unit) (so : N * SharpOutput)
  : list Event :=
  [EvResize body (fst so) (Ok (snd so));
   EvLog (LogText (key ++ str ": Creating "
                       ++ destKeyOf base (fst so) (out_info_format (snd so))));
   EvPutObject (variantPut destBucket base so) res].

Definition entryOf (destBucket : option jsstring) (base : jsstring)
           (so : N * SharpOutput) : JSON :=
  manifestEntry destBucket
                (destKeyOf base (fst so) (out_info_format (snd so))) (fst so).

Definition manifestPut (destBucket : option jsstring) (key : jsstring)
           (entries : list JSON) : PutObjectRequest :=
  {| put_Bucket := destBucket;
     put_Key := key ++ str ".thumbnails.json";
     put_Body := BodyString (JSON_stringify (JArray entries));
     put_ContentType := Some (str "application/json") |}.

(** What a record that is processed to its end adds to the trace: the
    fetch, the three variants and the manifest. *)
Record RecordRun := {
  run_record : S3EventRecord;
  run_key : jsstring;
  run_body : Buffer;
  run_out50 : SharpOutput;
  run_out100 : SharpOutput;
  run_out200 : SharpOutput
}.

Definition runEvents (destBucket : option jsstring) (run : RecordRun)
  : list Event :=
  let key := run_key run in
  let base := fst (pathParts key) in
  let outs := [(50, run_out50 run); (100, run_out100 run);
               (200, run_out200 run)] in
  [EvGetObject (fetchRequest (run_record run) key) (Ok (run_body run))]
  ++ flat_map (variantEvents destBucket key base (run_body run) (Ok tt)) outs
  ++ [EvLog (LogText (key ++ str ": Creating thumbnails.json"));
      EvPutObject (manifestPut destBucket key
                               (map (entryOf destBucket base) outs))
                  (Ok tt)].

(** The four writes of a record processed to its end, in program order. *)
Definition runWrites (destBucket : option jsstring) (run : RecordRun)
  : list PutObjectRequest :=
  let key := run_key run in
  let base := fst (pathParts key) in
  let outs := [(50, run_out50 run); (100, run_out100 run);
               (200, run_out200 run)] in
  [variantPut destBucket base (50, run_out50 run);
   variantPut destBucket base (100, run_out100 run);
   variantPut destBucket base (200, run_out200 run);
   manifestPut destBucket key (map (entryOf destBucket base) outs)].

Definition noOutput : SharpOutput := {| out_data := []; out_info_format := [] |}.

(** The Key Decoder in the words of the specification: the split at the
    last [.] of the name, whatever stands on its two sides, and the name
    with an empty extension when it holds no [.]. *)
Fixpoint splitAtLastDot (s : jsstring) : option (jsstring * jsstring) :=
  match s with
  | [] => None
  | c :: s' =>
      match splitAtLastDot s' with
      | Some (b, e) => Some (c :: b, e)
      | None => if c =? dot then Some ([], s') else None
      end
  end.

Definition decodeAtLastDot (s : jsstring) : jsstring * jsstring :=
  match splitAtLastDot s with
  | Some be => be
  | None => (s, [])
  end.

(** The keys of the fetches of a trace. *)
Fixpoint fetchKeys (evs : list Event) : list jsstring :=
  match evs with
  | [] => []
  | EvGetObject req _ :: evs' => get_Key req :: fetchKeys evs'
  | _ :: evs' => fetchKeys evs'
  end.

(** ** Sample environments and records *)

Fixpoint eqb_jsstring (a b : jsstring) : bool :=
  match a, b with
  | [], [] => true
  | x :: a', y :: b' => (x =? y) && eqb_jsstring a' b'
  | _, _ => false
  end.

Definition recordOf (bucketName rawkey : string) : S3EventRecord :=
  {| s3 := {| bucket := {| bucket_name := str bucketName |};
              object := {| object_key := str rawkey |} |} |}.

Definition jpegOutput (size : N) : SharpOutput :=
  {| out_data := [255; 216; size]; out_info_format := str "jpeg" |}.

(** Every request is accepted. *)
Definition envOk : Env :=
  {| s3_getObject := fun _ _ => Ok [255; 216; 255];
     sharp_resize := fun _ _ size => Ok (jpegOutput size);
     s3_putObject := fun _ _ => Ok tt |}.

(** S3 rejects a write that names no bucket. *)
Definition envStrict : Env :=
  {| s3_getObject := fun _ _ => Ok [255; 216; 255];
     sharp_resize := fun _ _ size => Ok (jpegOutput size);
     s3_putObject := fun _ req =>
       match put_Bucket req with
       | Some _ => Ok tt
       | None => Err (S3Error (str "MissingRequiredParameter"))
       end |}.

(** The object [missing.jpg] does not exist. *)
Definition envNoSuchKey : Env :=
  {| s3_getObject := fun _ req =>
       if eqb_jsstring (get_Key req) (str "missing.jpg")
       then Err (S3Error (str "NoSuchKey")) else Ok [255; 216; 255];
     sharp_resize := fun _ _ size => Ok (jpegOutput size);
     s3_putObject := fun _ _ => Ok tt |}.

(** S3 accepts the first write of the invocation and rejects the next. *)
Definition envSecondWriteFails : Env :=
  {| s3_getObject := fun _ _ => Ok [255; 216; 255];
     sharp_resize := fun _ _ size => Ok (jpegOutput size);
     s3_putObject := fun h _ =>
       match putRequests h with
       | [] => Ok tt
       | _ :: _ => Err (S3Error (str "SlowDown"))
       end |}.

(** A batch of two uploads. *)
Definition sampleBatch : S3Event :=
  {| Records := [recordOf "pictures" "vacation.jpg";
                 recordOf "pictures" "my+cat.png"] |}.

(** A batch whose second upload is gone when the handler runs. *)
Definition batchWithMissing : S3Event :=
  {| Records := [recordOf "pictures" "vacation.jpg";
                 recordOf "pictures" "missing.jpg";
                 recordOf "pictures" "my+cat.png"] |}.

(** The possible outcomes of the processing of one record, with the events
    each one leaves: the key cannot be decoded; the fetch is rejected; a
    resize or a variant write is rejected, after complete turns for the
    sizes before; the manifest write is reached, and accepted or rejected. *)
Inductive RecordOutcome (destBucket : option jsstring) (r : S3EventRecord)
  : Result unit -> list Event -> Prop :=
| RO_decode e :
    decodeKey (rawKey r) = Err e ->
    RecordOutcome destBucket r (Err e) []
| RO_fetch key e :
    decodeKey (rawKey r) = Ok key ->
    RecordOutcome destBucket r (Err e)
                  [EvGetObject (fetchRequest r key) (Err e)]
| RO_variant key body outs size later e es' :
    decodeKey (rawKey r) = Ok key ->
    sizes = map fst outs ++ size :: later ->
    es' = [EvResize body size (Err e)]
    \/ (exists out,
           es' = variantEvents destBucket key (fst (pathParts key)) body
                               (Err e) (size, out)) ->
    RecordOutcome destBucket r (Err e)
      (EvGetObject (fetchRequest r key) (Ok body)
       :: flat_map (variantEvents destBucket key (fst (pathParts key)) body
                                  (Ok tt)) outs
       ++ es')
| RO_manifest key body outs res :
    decodeKey (rawKey r) = Ok key ->
    map fst outs = sizes ->
    RecordOutcome destBucket r res
      (EvGetObject (fetchRequest r key) (Ok body)
       :: flat_map (variantEvents destBucket key (fst (pathParts key)) body
                                  (Ok tt)) outs
       ++ [EvLog (LogText (key ++ str ": Creating thumbnails.json"));
           EvPutObject
             (manifestPut destBucket key
                (map (entryOf destBucket (fst (pathParts key))) outs))
             res]).

(** ** The notification filters of [ThumbnailingBucket]

    The construct subscribes the function to the creation of objects whose
    key ends with one of these suffixes. *)
Definition notificationSuffixes : list jsstring :=
  [str ".jpg"; str ".jpeg"; str ".png"].

(** The keys of all the writes of a trace, in order. *)
Definition writeKeys (evs : list Event) : list jsstring :=
  map (fun p => put_Key (fst p)) (putRequests evs).

(** The decoded key of every record of a batch, or the error of its
    decoding. *)
Definition decodedKeys (event : S3Event) : list (Result jsstring) :=
  map (fun r => decodeKey (rawKey r)) (Records event).

(** ** The encoding of keys that the handler undoes

    S3 puts the key into the notification in the URL encoding of forms: a
    space is written [+]; a character is written as it is or as the
    escapes [%XX], upper-case, of the octets of its UTF-8 encoding.
    [plain] tells which characters the encoder leaves as they are. *)

Definition hexUpper (d : N) : N := if d <? 10 then 48 + d else 55 + d.

Definition percentEncode (B : N) : jsstring :=
  [ch "%"; hexUpper (B / 16); hexUpper (B mod 16)].

Definition utf8Encode (V : N) : list N :=
  if V <? 128 then [V]
  else if V <? 2048 then [192 + V / 64; 128 + V mod 64]
  else if V <? 65536 then
    [224 + V / 4096; 128 + (V / 64) mod 64; 128 + V mod 64]
  else [240 + V / 262144; 128 + (V / 4096) mod 64; 128 + (V / 64) mod 64;
        128 + V mod 64].

(** The code points that are characters: below U+110000 and no surrogate. *)
Definition isScalarValue (V : N) : bool :=
  (V <? 55296) || ((57343 <? V) && (V <? 1114112)).

Definition encodeCodePoint (plain : N -> bool) (V : N) : jsstring :=
  if V =? ch " " then [ch "+"]
  else if plain V then [V]
  else flat_map percentEncode (utf8Encode V).

Definition encodeKey (plain : N -> bool) (cps : list N) : jsstring :=
  flat_map (encodeCodePoint plain) cps.

(** Letters, digits and the marks [-], [_], [.], [*], [/]. *)
Definition urlPlain (c : N) : bool :=
  ((48 <=? c) && (c <=? 57)) || ((65 <=? c) && (c <=? 90))
  || ((97 <=? c) && (c <=? 122))
  || (c =? ch "-") || (c =? ch "_") || (c =? ch ".") || (c =? ch "*")
  || (c =? ch "/").

(** The characters that [JSON.stringify] copies as they are: no control
    character, no quote, no backslash, no surrogate. *)
Definition jsonPlain (c : N) : bool :=
  (32 <=? c) && negb (c =? 34) && negb (c =? 92)
  && negb ((55296 <=? c) && (c <=? 57343)).

(** A string between two quotes. *)
Definition quoted (s : jsstring) : jsstring := [34] ++ s ++ [34].

(** The text of one entry of a manifest whose strings need no escape: the
    four fields in the order of the object literal, the key and the URL
    character for character, the sizes in decimal. *)
Definition entryText (destBucket : option jsstring) (destKey : jsstring)
           (size : N) : jsstring :=
  str "{" ++ quoted (str "key") ++ str ":" ++ quoted destKey
  ++ str "," ++ quoted (str "url") ++ str ":"
  ++ quoted (str "https://" ++ templateString destBucket
                 ++ str ".s3.amazonaws.com/" ++ destKey)
  ++ str "," ++ quoted (str "width") ++ str ":" ++ Number_toString size
  ++ str "," ++ quoted (str "height") ++ str ":" ++ Number_toString size
  ++ str "}".

(** * Properties *)

(** ** The backtracking quantifiers *)

Section Quantifiers.
Context {A : Type}.
Variable p : N -> bool.

(** A lazy [x+?] whose continuation accepts at the end of the input only
    has to consume the whole input. *)
Lemma lazy_plus_to_end (s : jsstring) :
  forall (k : jsstring -> jsstring -> option A) (g : jsstring -> A),
    (forall m rest,
        k m rest = match rest with [] => Some (g m) | _ :: _ => None end) ->
    lazy_plus p s k
    = match s with
      | [] => None
      | _ :: _ => if forallb p s then Some (g s) else None
      end.
Proof.
  induction s as [|c s' IH]; intros k g Hk; [reflexivity|].
  cbn [lazy_plus forallb].
  destruct (p c); [|reflexivity].
  rewrite Hk. destruct s' as [|d s'']; [reflexivity|].
  rewrite (IH _ (fun m => g (c :: m))).
  - reflexivity.
  - intros m rest. apply Hk.
Qed.

(** A greedy [x+] fails when its continuation refuses every prefix it
    can consume. *)
Lemma greedy_plus_none (s : jsstring) :
  forall k : jsstring -> jsstring -> option A,
    (forall m rest, m <> [] -> s = m ++ rest -> forallb p m = true ->
                    k m rest = None) ->
    greedy_plus p s k = None.
Proof.
  induction s as [|c s' IH]; intros k Hk; [reflexivity|].
  cbn [greedy_plus].
  destruct (p c) eqn:Hc; [|reflexivity].
  rewrite IH.
  - apply (Hk [c] s'); [discriminate|reflexivity|].
    cbn. now rewrite Hc.
  - intros m rest Hm Hs Hp.
    apply (Hk (c :: m) rest); [discriminate|now rewrite Hs|].
    cbn. now rewrite Hc.
Qed.

(** A greedy [x+] answers with the longest prefix that its continuation
    accepts. *)
Lemma greedy_plus_longest (m : jsstring) :
  forall (rest : jsstring) (k : jsstring -> jsstring -> option A) (r : A),
    m <> [] ->
    forallb p m = true ->
    k m rest = Some r ->
    (forall m' rest', m' <> [] -> rest = m' ++ rest' ->
                      k (m ++ m') rest' = None) ->
    greedy_plus p (m ++ rest) k = Some r.
Proof.
  induction m as [|c m0 IH]; intros rest k r Hm Hp Hk Hlong; [congruence|].
  cbn [forallb] in Hp. apply andb_true_iff in Hp as [Hc Hp].
  cbn [app greedy_plus]. rewrite Hc.
  destruct m0 as [|c0 m1].
  - cbn [app]. rewrite greedy_plus_none; [exact Hk|].
    intros m' rest' Hm' Hrest _. apply (Hlong m' rest' Hm' Hrest).
  - rewrite (IH rest (fun m r0 => k (c :: m) r0) r);
      [reflexivity|discriminate|exact Hp|exact Hk|].
    intros m' rest' Hm' Hrest. apply (Hlong m' rest' Hm' Hrest).
Qed.
End Quantifiers.

(** ** [pathParts] *)

Lemma afterBase_some (base rest : jsstring) (r : jsstring * jsstring) :
  afterBase base rest = Some r <->
  exists e, rest = dot :: e /\ e <> [] /\ forallb re_dot e = true
            /\ r = (base, e).
Proof.
  unfold afterBase. destruct rest as [|c rest'].
  - split; [discriminate|]. intros (e & He & _). discriminate.
  - destruct (c =? ch ".") eqn:Hc.
    + apply N.eqb_eq in Hc. subst c.
      rewrite (lazy_plus_to_end re_dot rest' _ (fun ext => (base, ext)))
        by reflexivity.
      destruct rest' as [|d rest'']; [|destruct (forallb re_dot (d :: rest'')) eqn:Hf].
      * split; [discriminate|]. intros (e & He & Hne & _).
        injection He as <-. congruence.
      * split.
        -- intros [= <-]. exists (d :: rest''). repeat split; [discriminate|exact Hf].
        -- intros (e & He & _ & _ & ->). injection He as <-. reflexivity.
      * split; [discriminate|]. intros (e & He & _ & Hf' & _).
        injection He as <-. congruence.
    + split; [discriminate|]. intros (e & He & _).
      injection He as -> _. apply N.eqb_neq in Hc. now contradiction Hc.
Qed.

Lemma afterBase_none (base rest : jsstring) :
  (forall e, rest = dot :: e -> e = [] \/ forallb re_dot e = false) ->
  afterBase base rest = None.
Proof.
  intros H. destruct (afterBase base rest) as [r|] eqn:E; [|reflexivity].
  apply afterBase_some in E as (e & He & Hne & Hf & _).
  destruct (H e He); congruence.
Qed.

(** The anchor [^] makes every start index but 0 fail. *)
Lemma exec_from_S (s : jsstring) : forall i, exec_from (S i) s = None.
Proof.
  induction s as [|c s' IH]; intros i; cbn; [reflexivity|apply IH].
Qed.

Lemma pathParts_unfold (name : jsstring) :
  pathParts name
  = match greedy_plus re_dot name afterBase with
    | None => (name, [])
    | Some r => r
    end.
Proof.
  unfold pathParts.
  assert (E : exec_from 0 name = greedy_plus re_dot name afterBase).
  { destruct name as [|c s']; [reflexivity|].
    cbn [exec_from]. change (pathParts_pattern 0 (c :: s'))
      with (greedy_plus re_dot (c :: s') afterBase).
    destruct (greedy_plus re_dot (c :: s') afterBase); [reflexivity|].
    apply exec_from_S. }
  rewrite E. destruct (greedy_plus re_dot name afterBase) as [[b e]|]; reflexivity.
Qed.

(** The pattern matches at the last [.] that has some text on both sides:
    the extension holds no [.] except, possibly, as its last character. *)
Lemma pathParts_split (b e : jsstring) :
  b <> [] -> e <> [] ->
  forallb re_dot (b ++ dot :: e) = true ->
  (forall e1 e2, e = e1 ++ dot :: e2 -> e2 = []) ->
  pathParts (b ++ dot :: e) = (b, e).
Proof.
  intros Hb He Hf Hlast.
  rewrite forallb_app in Hf. apply andb_true_iff in Hf as [Hfb Hfe].
  cbn [forallb] in Hfe. apply andb_true_iff in Hfe as [_ Hfe].
  rewrite pathParts_unfold.
  rewrite (greedy_plus_longest re_dot b (dot :: e) afterBase (b, e));
    [reflexivity|exact Hb|exact Hfb| |].
  - apply afterBase_some. exists e. auto.
  - intros m' rest' Hm' Hrest. apply afterBase_none.
    intros e' ->. left.
    destruct m' as [|c m'']; [congruence|].
    injection Hrest as _ Hrest. exact (Hlast _ _ Hrest).
Qed.

(** No match, and the name comes back whole, when no [.] has text on both
    sides. *)
Lemma pathParts_no_split (s : jsstring) :
  (forall b e, s = b ++ dot :: e -> b = [] \/ e = []) ->
  pathParts s = (s, []).
Proof.
  intros H. rewrite pathParts_unfold.
  rewrite greedy_plus_none; [reflexivity|].
  intros m rest Hm Hs _. apply afterBase_none.
  intros e ->. destruct (H m e Hs); [congruence|now left].
Qed.

(** No match either when the name holds a line terminator. *)
Lemma pathParts_line_terminator (s : jsstring) :
  existsb isLineTerminator s = true ->
  pathParts s = (s, []).
Proof.
  intros H. rewrite pathParts_unfold.
  rewrite greedy_plus_none; [reflexivity|].
  intros m rest Hm Hs Hfm. apply afterBase_none.
  intros e ->. destruct e as [|c e']; [now left|right].
  destruct (forallb re_dot (c :: e')) eqn:Hfe; [|reflexivity].
  assert (Hall : forallb re_dot s = true).
  { rewrite Hs, forallb_app. cbn [forallb]. rewrite Hfm.
    cbn [forallb] in Hfe. now rewrite Hfe. }
  apply existsb_exists in H as (x & Hx & Hlt).
  rewrite forallb_forall in Hall. specialize (Hall x Hx).
  unfold re_dot in Hall. rewrite Hlt in Hall. discriminate.
Qed.

(** ** Decoding of the notification key *)

Lemma replace_plus_map (s : jsstring) : replace_plus s = map plusToSpace s.
Proof.
  unfold replace_plus.
  induction s as [|c s' IH]; [reflexivity|].
  cbn [replace_global map]. unfold plusToSpace at 1.
  destruct (c =? ch "+"); rewrite IH; reflexivity.
Qed.

Lemma hexValue_not_plus (c v : N) : hexValue c = Some v -> plusToSpace c = c.
Proof.
  unfold hexValue, plusToSpace. intros H.
  destruct (c =? ch "+") eqn:E; [|reflexivity].
  apply N.eqb_eq in E. subst c. discriminate H.
Qed.

Lemma Decode_plain (c : N) (s : jsstring) :
  (c =? ch "%") = false ->
  Decode 0 (c :: s) = mapResult (cons c) (Decode 0 s).
Proof. intros H. cbn [Decode]. now rewrite H. Qed.

Lemma Decode_ascii_escape (h l hv lv : N) (s : jsstring) :
  hexValue h = Some hv -> hexValue l = Some lv ->
  (16 * hv + lv <? 128) = true ->
  Decode 0 (ch "%" :: h :: l :: s)
  = mapResult (cons (16 * hv + lv)) (Decode 0 s).
Proof.
  intros Hh Hl Hlt.
  cbn [Decode]. rewrite N.eqb_refl.
  unfold readHex2. rewrite Hh, Hl.
  unfold leadingOnes. rewrite Hlt. reflexivity.
Qed.

(** On a key made of plain characters, [+] signs and escapes of ASCII
    characters, the handler's decoding turns every [+] into a space and
    every escape into its character: an escaped [+] stays a [+]. *)
Lemma decodeKey_tokens (ts : list KeyToken) :
  forallb tokenOk ts = true ->
  decodeKey (flat_map tokenText ts) = Ok (map tokenValue ts).
Proof.
  unfold decodeKey, decodeURIComponent. rewrite replace_plus_map.
  induction ts as [|t ts IH]; [reflexivity|].
  cbn [forallb flat_map]. intros H.
  apply andb_true_iff in H as [Ht Hts]. specialize (IH Hts).
  rewrite map_app. cbn [map].
  destruct t as [c| |h l].
  - cbn [tokenOk] in Ht. apply andb_true_iff in Ht as [Hp Hq].
    apply negb_true_iff in Hp, Hq.
    cbn [tokenText map app]. unfold plusToSpace at 1. rewrite Hq.
    rewrite (Decode_plain c _ Hp), IH. reflexivity.
  - cbn [tokenText map app].
    change (plusToSpace (ch "+")) with (ch " ").
    rewrite Decode_plain by reflexivity. rewrite IH. reflexivity.
  - cbn [tokenOk] in Ht. cbn [tokenText map app tokenValue].
    destruct (hexValue h) as [hv|] eqn:Hh; [|discriminate].
    destruct (hexValue l) as [lv|] eqn:Hl; [|discriminate].
    change (plusToSpace (ch "%")) with (ch "%").
    rewrite (hexValue_not_plus h hv Hh), (hexValue_not_plus l lv Hl).
    rewrite (Decode_ascii_escape h l hv lv _ Hh Hl Ht), IH. reflexivity.
Qed.

(** ** Runs of the loops *)

Ltac inv H := inversion H; subst; clear H.

Section Runs.
Variable env : Env.
Variable destBucket : option jsstring.

(** One turn of the loop over the sizes: the resize throws, or the write
    throws, or the turn yields its manifest entry. *)
Lemma makeVariant_run (key base : jsstring) (body : Buffer) (size : N)
      (h : list Event) (res : Result JSON) (es : list Event) :
  makeVariant env destBucket key base body size h = (res, es) ->
  (exists e, res = Err e /\ es = [EvResize body size (Err e)])
  \/ (exists out e,
         res = Err e
         /\ es = variantEvents destBucket key base body (Err e) (size, out))
  \/ (exists out,
         res = Ok (entryOf destBucket base (size, out))
         /\ es = variantEvents destBucket key base body (Ok tt) (size, out)).
Proof.
  unfold makeVariant, bind, resize, console_log, putObject, ret.
  destruct (sharp_resize env h body size) as [out|e] eqn:Hr.
  - cbn [app].
    match goal with
    | |- context [s3_putObject env ?h' ?req] =>
        destruct (s3_putObject env h' req) as [[]|e] eqn:Hp
    end; intros H; inv H.
    + right; right. exists out. split; reflexivity.
    + right; left. exists out, e. split; reflexivity.
  - intros H; inv H. left. exists e. split; reflexivity.
Qed.

(** The loop over the sizes: it runs to its end, or it stops at the
    first turn that throws; the turns before that one were complete. *)
Lemma forOfPush_run (key base : jsstring) (body : Buffer) (xs : list N) :
  forall (acc : list JSON) (h : list Event) (res : Result (list JSON))
         (es : list Event),
    forOfPush xs (makeVariant env destBucket key base body) acc h = (res, es) ->
    (exists outs,
        map fst outs = xs
        /\ res = Ok (acc ++ map (entryOf destBucket base) outs)
        /\ es = flat_map (variantEvents destBucket key base body (Ok tt)) outs)
    \/ (exists outs size xs' e es',
           xs = map fst outs ++ size :: xs'
           /\ res = Err e
           /\ es = flat_map (variantEvents destBucket key base body (Ok tt))
                            outs ++ es'
           /\ (es' = [EvResize body size (Err e)]
               \/ exists out,
                  es' = variantEvents destBucket key base body (Err e)
                                      (size, out))).
Proof.
  induction xs as [|x xs IH]; intros acc h res es.
  - cbn [forOfPush]. unfold ret. intros H; inv H.
    left. exists []. rewrite app_nil_r. repeat split.
  - cbn [forOfPush]. unfold bind at 1.
    destruct (makeVariant env destBucket key base body x h) as [r1 es1] eqn:Hm.
    apply makeVariant_run in Hm
      as [(e & -> & ->) | [(out & e & -> & ->) | (out & -> & ->)]].
    + intros H; inv H. right. exists [], x, xs, e, [EvResize body x (Err e)].
      repeat split. now left.
    + intros H; inv H. right.
      exists [], x, xs, e,
        (variantEvents destBucket key base body (Err e) (x, out)).
      repeat split. right. now exists out.
    + match goal with
      | |- context [forOfPush xs ?f ?acc' ?h'] =>
          destruct (forOfPush xs f acc' h') as [r2 es2] eqn:Hl
      end.
      intros H; inv H.
      apply IH in Hl
        as [(outs & Hx & -> & ->) | (outs & size & xs' & e & es' & Hx & -> & -> & Hes')].
      * left. exists ((x, out) :: outs). cbn [map fst flat_map].
        rewrite Hx, <- app_assoc. repeat split.
      * right. exists ((x, out) :: outs), size, xs', e, es'.
        cbn [map fst flat_map]. rewrite Hx, <- app_assoc. repeat split.
        exact Hes'.
Qed.
End Runs.

(** ** Runs of a record *)

Lemma processRecord_run (env : Env) (destBucket : option jsstring)
      (r : S3EventRecord) (h : list Event) (res : Result unit)
      (es : list Event) :
  processRecord env destBucket r h = (res, es) ->
  RecordOutcome destBucket r res es.
Proof.
  unfold processRecord, bind at 1, liftResult.
  fold (rawKey r).
  destruct (decodeKey (rawKey r)) as [key|e] eqn:Hkey.
  2:{ intros H; inv H. now apply RO_decode. }
  unfold bind at 1, getObject. fold (fetchRequest r key).
  cbn [app].
  destruct (s3_getObject env (h ++ []) (fetchRequest r key)) as [body|e] eqn:Hget.
  2:{ intros H; inv H. now apply RO_fetch. }
  destruct (pathParts key) as [base ext] eqn:Hparts.
  pose proof (f_equal fst Hparts) as Hbase. cbn [fst] in Hbase.
  unfold bind at 1.
  match goal with
  | |- context [forOfPush sizes ?f ?acc ?h'] =>
      destruct (forOfPush sizes f acc h') as [r1 es1] eqn:Hloop
  end.
  apply forOfPush_run in Hloop
    as [(outs & Hx & -> & ->)
       | (outs & size & later & e & es' & Hx & -> & -> & Hes')].
  - unfold bind, console_log, putObject. cbn [app].
    fold (manifestPut destBucket key (map (entryOf destBucket base) outs)).
    intros H; inv H.
    apply RO_manifest; assumption.
  - intros H; inv H.
    apply (RO_variant destBucket r key body outs size later e es'); assumption.
Qed.

(** ** The observations on the events of complete turns *)

Lemma putRequests_app (a b : list Event) :
  putRequests (a ++ b) = putRequests a ++ putRequests b.
Proof.
  induction a as [|ev a IH]; [reflexivity|].
  destruct ev; cbn [app putRequests]; rewrite IH; reflexivity.
Qed.

Lemma resizeOutputs_app (a b : list Event) :
  resizeOutputs (a ++ b) = resizeOutputs a ++ resizeOutputs b.
Proof.
  induction a as [|ev a IH]; [reflexivity|].
  destruct ev as [| |input size [out|e]|]; cbn [app resizeOutputs];
    rewrite IH; reflexivity.
Qed.

Lemma putRequests_turns d key base body res (outs : list (N * SharpOutput)) :
  putRequests (flat_map (variantEvents d key base body res) outs)
  = map (fun so => (variantPut d base so, res)) outs.
Proof.
  induction outs as [|so outs IH]; [reflexivity|].
  cbn [flat_map map]. rewrite putRequests_app, IH. reflexivity.
Qed.

Lemma resizeOutputs_turns d key base body res (outs : list (N * SharpOutput)) :
  resizeOutputs (flat_map (variantEvents d key base body res) outs) = outs.
Proof.
  induction outs as [|[size out] outs IH]; [reflexivity|].
  cbn [flat_map]. rewrite resizeOutputs_app, IH. reflexivity.
Qed.

Lemma filter_variantPut d base (outs : list (N * SharpOutput)) :
  filter isVariantWrite (map (variantPut d base) outs)
  = map (variantPut d base) outs.
Proof.
  induction outs as [|so outs IH]; [reflexivity|].
  cbn [map filter]. cbn [isVariantWrite variantPut put_ContentType].
  now rewrite IH.
Qed.

Lemma variantWrites_app (a b : list Event) :
  variantWrites (a ++ b) = variantWrites a ++ variantWrites b.
Proof.
  unfold variantWrites. now rewrite putRequests_app, map_app, filter_app.
Qed.

Lemma manifestWrites_app (a b : list Event) :
  manifestWrites (a ++ b) = manifestWrites a ++ manifestWrites b.
Proof.
  unfold manifestWrites. now rewrite putRequests_app, map_app, filter_app.
Qed.

Lemma variantWrites_turns d key base body res (outs : list (N * SharpOutput)) :
  variantWrites (flat_map (variantEvents d key base body res) outs)
  = map (variantPut d base) outs.
Proof.
  unfold variantWrites. rewrite putRequests_turns, map_map. cbn [fst].
  apply filter_variantPut.
Qed.

Lemma manifestWrites_turns d key base body res (outs : list (N * SharpOutput)) :
  manifestWrites (flat_map (variantEvents d key base body res) outs) = [].
Proof.
  unfold manifestWrites. rewrite putRequests_turns, map_map. cbn [fst].
  induction outs as [|so outs IH]; [reflexivity|exact IH].
Qed.

(** In every run of a record, the variant writes that were issued are those
    of the images that were produced, in the same order. *)
Lemma record_variant_writes d r res evs key :
  RecordOutcome d r res evs ->
  decodeKey (rawKey r) = Ok key ->
  variantWrites evs
  = map (variantPut d (fst (pathParts key))) (resizeOutputs evs).
Proof.
  intros Hrun Hkey.
  destruct Hrun as [e Hk | key0 e Hk | key0 body outs size later e es' Hk Hs Hes'
                   | key0 body outs res Hk Hs];
    rewrite Hk in Hkey; inv Hkey.
  - reflexivity.
  - change (variantWrites (?x :: ?l)) with (variantWrites l).
    change (resizeOutputs (?x :: ?l)) with (resizeOutputs l).
    rewrite variantWrites_app, resizeOutputs_app, map_app.
    rewrite variantWrites_turns, resizeOutputs_turns.
    destruct Hes' as [-> | (out & ->)]; reflexivity.
  - change (variantWrites (?x :: ?l)) with (variantWrites l).
    change (resizeOutputs (?x :: ?l)) with (resizeOutputs l).
    rewrite variantWrites_app, resizeOutputs_app, map_app.
    rewrite variantWrites_turns, resizeOutputs_turns. reflexivity.
Qed.

Lemma no_terminator_all_dot (s : jsstring) :
  existsb isLineTerminator s = false -> forallb re_dot s = true.
Proof.
  induction s as [|c s' IH]; [reflexivity|].
  cbn [existsb forallb]. intros H. apply orb_false_iff in H as [Hc Hs].
  unfold re_dot at 1. rewrite Hc. exact (IH Hs).
Qed.

Lemma no_dot_no_split (s b e : jsstring) :
  ~ In dot s -> s <> b ++ dot :: e.
Proof.
  intros Hn ->. apply Hn, in_or_app. right. now left.
Qed.

(** A name that begins with its only [.] has no text before it. *)
Lemma dotfile_no_split (s : jsstring) :
  ~ In dot s ->
  forall b e, dot :: s = b ++ dot :: e -> b = [] \/ e = [].
Proof.
  intros Hn b e H. destruct b as [|c b']; [now left|].
  injection H as _ H. now apply no_dot_no_split in H.
Qed.

(** A name that ends with its only [.] has no text after it. *)
Lemma trailing_dot_no_split (s : jsstring) :
  ~ In dot s ->
  forall b e, s ++ [dot] = b ++ dot :: e -> b = [] \/ e = [].
Proof.
  induction s as [|c s' IH]; intros Hn b e H.
  - destruct b as [|c b']; [now left|].
    injection H as _ H. destruct b'; discriminate.
  - destruct b as [|c' b'].
    + injection H as Hc _. exfalso. apply Hn. now left.
    + injection H as _ H. right.
      assert (Hn' : ~ In dot s') by (intros Hin; apply Hn; now right).
      destruct (IH Hn' b' e H) as [-> | He]; [|exact He].
      cbn [app] in H. destruct s' as [|d s''].
      * injection H as H. now symmetry.
      * injection H as Hd _. exfalso. apply Hn'. now left.
Qed.

(** C2 (as stated, refuted).  The Key Decoder does not split every name
    that holds a [.] at its last [.]: a name that begins with its only
    [.], a name that ends with one and a name with a line terminator come
    back whole, so that base, [.] and extension do not rebuild them; and
    [a.b.] is split at its first [.], which leaves a [.] in the
    extension. *)
Lemma pathParts_counterexample :
  (In dot (str ".hidden")
   /\ fst (pathParts (str ".hidden")) ++ dot :: snd (pathParts (str ".hidden"))
      <> str ".hidden")
  /\ (In dot (str "name.")
      /\ fst (pathParts (str "name.")) ++ dot :: snd (pathParts (str "name."))
         <> str "name.")
  /\ (In dot (str "a" ++ [10] ++ str ".b")
      /\ pathParts (str "a" ++ [10] ++ str ".b")
         = (str "a" ++ [10] ++ str ".b", []))
  /\ (pathParts (str "a.b.") = (str "a", str "b.")
      /\ In dot (snd (pathParts (str "a.b.")))).
Proof.
  repeat split; vm_compute; try reflexivity; try discriminate; tauto.
Qed.

(** C2 (amended).  For every name without line terminator that is
    [b ++ "." ++ e] with [b] and [e] not empty and no [.] in [e], the Key
    Decoder returns [(b, e)]: base, [.] and extension rebuild the name, the
    extension holds no [.] and the split is at the last [.]; for every name
    without [.], it returns the name and an empty extension. *)
Theorem pathParts_last_dot :
  (forall b e : jsstring,
      b <> [] -> e <> [] -> ~ In dot e ->
      existsb isLineTerminator (b ++ dot :: e) = false ->
      pathParts (b ++ dot :: e) = (b, e))
  /\ (forall s : jsstring, ~ In dot s -> pathParts s = (s, [])).
Proof.
  split.
  - intros b e Hb He Hn Hlt.
    apply pathParts_split; [exact Hb|exact He| |].
    + now apply no_terminator_all_dot.
    + intros e1 e2 ->. exfalso. apply Hn, in_or_app. right. now left.
  - intros s Hn. apply pathParts_no_split.
    intros b e H. now apply no_dot_no_split in H.
Qed.

Lemma pathParts_last_dot_witness :
  pathParts (str "photo.final.jpg") = (str "photo.final", str "jpg")
  /\ pathParts (str "noext") = (str "noext", []).
Proof.
  split.
  - apply (proj1 pathParts_last_dot (str "photo.final") (str "jpg")).
    + discriminate.
    + discriminate.
    + vm_compute. intuition discriminate.
    + reflexivity.
  - apply (proj2 pathParts_last_dot (str "noext")).
    vm_compute. intuition discriminate.
Defined.

(** C10.  The Key Decoder returns the name whole, with an empty extension,
    for every name in which no [.] has text on both sides, as [.hidden] and
    [name.]; for such a key, the destination key of every variant is built
    on the whole decoded key. *)
Theorem pathParts_whole_name :
  (forall s : jsstring,
      (forall b e, s = b ++ dot :: e -> b = [] \/ e = []) ->
      pathParts s = (s, []))
  /\ pathParts (str ".hidden") = (str ".hidden", [])
  /\ pathParts (str "name.") = (str "name.", [])
  /\ (forall env destBucket r h res evs key,
         processRecord env destBucket r h = (res, evs) ->
         decodeKey (rawKey r) = Ok key ->
         (forall b e, key = b ++ dot :: e -> b = [] \/ e = []) ->
         map put_Key (variantWrites evs)
         = map (fun so => key ++ str "-" ++ Number_toString (fst so)
                              ++ str "x" ++ Number_toString (fst so)
                              ++ str "." ++ out_info_format (snd so))
               (resizeOutputs evs)).
Proof.
  split; [exact pathParts_no_split|].
  split; [reflexivity|]. split; [reflexivity|].
  intros env destBucket r h res evs key Hrun Hkey Hno.
  apply processRecord_run in Hrun.
  rewrite (record_variant_writes _ _ _ _ _ Hrun Hkey), map_map.
  rewrite (pathParts_no_split key Hno). reflexivity.
Qed.

Lemma pathParts_whole_name_witness :
  map put_Key
      (variantWrites
         (snd (processRecord envOk (Some (str "thumbs"))
                             (recordOf "pictures" ".hidden") [])))
  = [str ".hidden-50x50.jpeg"; str ".hidden-100x100.jpeg";
     str ".hidden-200x200.jpeg"].
Proof.
  rewrite (proj2 (proj2 (proj2 pathParts_whole_name))
             envOk (Some (str "thumbs")) (recordOf "pictures" ".hidden") []
             (fst (processRecord envOk (Some (str "thumbs"))
                                 (recordOf "pictures" ".hidden") []))
             (snd (processRecord envOk (Some (str "thumbs"))
                                 (recordOf "pictures" ".hidden") []))
             (str ".hidden")).
  - reflexivity.
  - apply surjective_pairing.
  - reflexivity.
  - apply (dotfile_no_split (str "hidden")). vm_compute. intuition discriminate.
Defined.

(** The fetch is the first effect of the processing of a record whose key
    can be decoded. *)
Lemma fetch_first (env : Env) (destBucket : option jsstring)
      (r : S3EventRecord) (h : list Event) (key : jsstring) :
  decodeKey (rawKey r) = Ok key ->
  exists res rest,
    processRecord env destBucket r h
    = (res,
       EvGetObject (fetchRequest r key)
                   (s3_getObject env h (fetchRequest r key)) :: rest).
Proof.
  intros Hkey.
  destruct (processRecord env destBucket r h) as [res evs] eqn:Hrun.
  revert Hrun.
  unfold processRecord, bind at 1, liftResult. fold (rawKey r).
  rewrite Hkey.
  unfold bind at 1, getObject. fold (fetchRequest r key).
  cbn [app]. rewrite app_nil_r.
  destruct (s3_getObject env h (fetchRequest r key)) as [body|e].
  - match goal with
    | |- context [?run (h ++ [EvGetObject (fetchRequest r key) (Ok body)])] =>
        destruct (run (h ++ [EvGetObject (fetchRequest r key) (Ok body)]))
          as [r0 es']
    end.
    intros H; inv H. eauto.
  - intros H; inv H. eauto.
Qed.

(** C8.  The raw notification key is decoded by replacing every [+] with a
    space and by applying percent-decoding to the result: on a key made of
    plain characters, [+] signs and escapes of ASCII characters each [+]
    becomes a space and each escape its character, and
    [my+file%20name.jpg] decodes to [my file name.jpg]. *)
Theorem decodeKey_plus_then_percent :
  (forall raw : jsstring,
      decodeKey raw = decodeURIComponent (map plusToSpace raw))
  /\ (forall ts : list KeyToken,
         forallb tokenOk ts = true ->
         decodeKey (flat_map tokenText ts) = Ok (map tokenValue ts))
  /\ decodeKey (str "my+file%20name.jpg") = Ok (str "my file name.jpg").
Proof.
  split; [|split].
  - intros raw. unfold decodeKey. now rewrite replace_plus_map.
  - exact decodeKey_tokens.
  - reflexivity.
Qed.

Lemma decodeKey_plus_then_percent_witness :
  decodeKey (str "a+b%2Bc")
  = Ok [ch "a"; ch " "; ch "b"; ch "+"; ch "c"].
Proof.
  apply (proj1 (proj2 decodeKey_plus_then_percent)
               [TChar (ch "a"); TPlus; TChar (ch "b");
                TEscape (ch "2") (ch "B"); TChar (ch "c")]).
  reflexivity.
Defined.

(** C9 (as stated, refuted).  Percent-decoding first and substituting [+]
    afterwards is not what recovers the key of the fetch: for the raw key
    [a%2Bb] that order gives [a b], and the handler fetches [a+b]. *)
Lemma fetch_key_counterexample :
  percentThenPlus (str "a%2Bb") = Ok (str "a b")
  /\ fetchKeys (snd (handler envOk (Some (str "thumbs"))
                             {| Records := [recordOf "pictures" "a%2Bb"] |} []))
     = [str "a+b"]
  /\ str "a+b" <> str "a b".
Proof.
  split; [reflexivity|]. split; [reflexivity|]. discriminate.
Qed.

(** C9 (amended).  For every raw notification key, the storage key used
    for the fetch is recovered by substituting every [+] with a space first
    and by percent-decoding the result: the fetch is the first effect of
    the processing of the record, it names the source bucket of the record
    and that key. *)
Theorem fetch_key_plus_then_percent
        (env : Env) (destBucket : option jsstring) (r : S3EventRecord)
        (h : list Event) (key : jsstring) :
  decodeURIComponent (replace_plus (rawKey r)) = Ok key ->
  exists res rest,
    processRecord env destBucket r h
    = (res,
       EvGetObject {| get_Bucket := bucket_name (bucket (s3 r));
                      get_Key := key |}
                   (s3_getObject env h (fetchRequest r key)) :: rest).
Proof.
  intros Hkey. exact (fetch_first env destBucket r h key Hkey).
Qed.

Lemma fetch_key_plus_then_percent_witness :
  exists res rest,
    processRecord envOk (Some (str "thumbs"))
                  (recordOf "pictures" "my+file%20name.jpg") []
    = (res,
       EvGetObject {| get_Bucket := str "pictures";
                      get_Key := str "my file name.jpg" |}
                   (Ok [255; 216; 255]) :: rest).
Proof.
  apply (fetch_key_plus_then_percent
           envOk (Some (str "thumbs"))
           (recordOf "pictures" "my+file%20name.jpg") []
           (str "my file name.jpg")).
  reflexivity.
Defined.

(** ** Complete and interrupted runs of a record *)

Lemma outs_of_sizes (outs : list (N * SharpOutput)) :
  map fst outs = sizes ->
  exists o50 o100 o200, outs = [(50, o50); (100, o100); (200, o200)].
Proof.
  unfold sizes. intros H.
  destruct outs as [|[s1 o1] [|[s2 o2] [|[s3 o3] [|x outs]]]]; try discriminate.
  cbn in H. injection H as -> -> ->. now exists o1, o2, o3.
Qed.

(** A record whose processing ends well left the events of a complete
    run. *)
Lemma record_ok_run d r evs :
  RecordOutcome d r (Ok tt) evs ->
  exists key body o50 o100 o200,
    decodeKey (rawKey r) = Ok key
    /\ evs = runEvents d {| run_record := r; run_key := key; run_body := body;
                            run_out50 := o50; run_out100 := o100;
                            run_out200 := o200 |}.
Proof.
  intros Hrun. inv Hrun.
  match goal with H : map fst _ = sizes |- _ =>
    apply outs_of_sizes in H as (o50 & o100 & o200 & ->) end.
  exists key, body, o50, o100, o200. split; [assumption|reflexivity].
Qed.

(** C1.  A record that is processed to its end has one manifest write, the
    last of its four writes: it goes to the destination bucket under the
    decoded source key followed by [.thumbnails.json], with content type
    [application/json], and its body is the JSON array of one object per
    variant, in the order 50, 100, 200, each with the fields [key], [url],
    [width] and [height], the last two equal to the size of the variant. *)
Theorem manifest_of_record
        (env : Env) (destBucket : option jsstring) (r : S3EventRecord)
        (h : list Event) (evs : list Event) :
  processRecord env destBucket r h = (Ok tt, evs) ->
  exists key o50 o100 o200,
    decodeKey (rawKey r) = Ok key
    /\ resizeOutputs evs = [(50, o50); (100, o100); (200, o200)]
    /\ let base := fst (pathParts key) in
       let k50 := destKeyOf base 50 (out_info_format o50) in
       let k100 := destKeyOf base 100 (out_info_format o100) in
       let k200 := destKeyOf base 200 (out_info_format o200) in
       let manifest :=
         JArray
           [JObject [(str "key", JString k50);
                     (str "url", JString (urlOf destBucket k50));
                     (str "width", JNumber 50);
                     (str "height", JNumber 50)];
            JObject [(str "key", JString k100);
                     (str "url", JString (urlOf destBucket k100));
                     (str "width", JNumber 100);
                     (str "height", JNumber 100)];
            JObject [(str "key", JString k200);
                     (str "url", JString (urlOf destBucket k200));
                     (str "width", JNumber 200);
                     (str "height", JNumber 200)]] in
       putRequests evs
       = [(variantPut destBucket base (50, o50), Ok tt);
          (variantPut destBucket base (100, o100), Ok tt);
          (variantPut destBucket base (200, o200), Ok tt);
          ({| put_Bucket := destBucket;
              put_Key := key ++ str ".thumbnails.json";
              put_Body := BodyString (JSON_stringify manifest);
              put_ContentType := Some (str "application/json") |}, Ok tt)].
Proof.
  intros Hrun. apply processRecord_run, record_ok_run in Hrun
    as (key & body & o50 & o100 & o200 & Hkey & ->).
  exists key, o50, o100, o200. repeat split; assumption.
Qed.

Lemma manifest_of_record_witness :
  exists key o50 o100 o200,
    decodeKey (str "vacation.jpg") = Ok key
    /\ resizeOutputs
         (snd (processRecord envOk (Some (str "thumbs"))
                             (recordOf "pictures" "vacation.jpg") []))
       = [(50, o50); (100, o100); (200, o200)]
    /\ map (fun p => put_Key (fst p))
           (putRequests
              (snd (processRecord envOk (Some (str "thumbs"))
                                  (recordOf "pictures" "vacation.jpg") [])))
       = [destKeyOf (fst (pathParts key)) 50 (out_info_format o50);
          destKeyOf (fst (pathParts key)) 100 (out_info_format o100);
          destKeyOf (fst (pathParts key)) 200 (out_info_format o200);
          key ++ str ".thumbnails.json"].
Proof.
  destruct (manifest_of_record
              envOk (Some (str "thumbs")) (recordOf "pictures" "vacation.jpg")
              []
              (snd (processRecord envOk (Some (str "thumbs"))
                                  (recordOf "pictures" "vacation.jpg") [])))
    as (key & o50 & o100 & o200 & Hkey & Hres & Hputs).
  - reflexivity.
  - exists key, o50, o100, o200. split; [exact Hkey|]. split; [exact Hres|].
    cbv zeta in Hputs. rewrite Hputs. reflexivity.
Defined.

(** C3 (as stated, refuted).  The base of the destination keys is not
    always what stands before the last [.] of the decoded key: for the key
    [.jpg] that text is empty, and the variants are written under
    [.jpg-50x50.jpeg], [.jpg-100x100.jpeg] and [.jpg-200x200.jpeg]. *)
Lemma destination_key_counterexample :
  decodeKey (str ".jpg") = Ok (str ".jpg")
  /\ fst (decodeAtLastDot (str ".jpg")) = []
  /\ map put_Key
         (variantWrites
            (snd (processRecord envOk (Some (str "thumbs"))
                                (recordOf "pictures" ".jpg") [])))
     = [str ".jpg-50x50.jpeg"; str ".jpg-100x100.jpeg";
        str ".jpg-200x200.jpeg"]
  /\ str ".jpg-50x50.jpeg"
     <> destKeyOf (fst (decodeAtLastDot (str ".jpg"))) 50 (str "jpeg").
Proof.
  repeat split; try reflexivity. vm_compute. discriminate.
Qed.

(** C3 (amended).  For every record and every size for which an image was
    produced, the destination key of the variant is
    [{base}-{size}x{size}.{format}], where [base] is the first component
    that the Key Decoder returns for the decoded source key and [format] is
    the format reported by the encoder for that image, not the extension of
    the source key; a record processed to its end has an image for each of
    the sizes 50, 100 and 200; and [base] is what stands before the last
    [.] of the key when the key has no line terminator and text on both
    sides of that [.]. *)
Theorem destination_key
        (env : Env) (destBucket : option jsstring) (r : S3EventRecord)
        (h : list Event) (res : Result unit) (evs : list Event)
        (key : jsstring) :
  processRecord env destBucket r h = (res, evs) ->
  decodeKey (rawKey r) = Ok key ->
  map put_Key (variantWrites evs)
  = map (fun so => fst (pathParts key) ++ str "-" ++ Number_toString (fst so)
                       ++ str "x" ++ Number_toString (fst so)
                       ++ str "." ++ out_info_format (snd so))
        (resizeOutputs evs)
  /\ (res = Ok tt -> map fst (resizeOutputs evs) = [50; 100; 200])
  /\ (forall b e,
         key = b ++ dot :: e -> b <> [] -> e <> [] -> ~ In dot e ->
         existsb isLineTerminator key = false ->
         fst (pathParts key) = b).
Proof.
  intros Hrun Hkey. apply processRecord_run in Hrun.
  split; [|split].
  - rewrite (record_variant_writes _ _ _ _ _ Hrun Hkey), map_map. reflexivity.
  - intros ->. apply record_ok_run in Hrun
      as (key' & body & o50 & o100 & o200 & _ & ->). reflexivity.
  - intros b e -> Hb He Hn Hlt.
    rewrite pathParts_split; [reflexivity|exact Hb|exact He| |].
    + now apply no_terminator_all_dot.
    + intros e1 e2 ->. exfalso. apply Hn, in_or_app. right. now left.
Qed.

Lemma destination_key_witness :
  map put_Key
      (variantWrites
         (snd (processRecord envOk (Some (str "thumbs"))
                             (recordOf "pictures" "my+cat.final.png") [])))
  = [str "my cat.final-50x50.jpeg"; str "my cat.final-100x100.jpeg";
     str "my cat.final-200x200.jpeg"]
  /\ fst (pathParts (str "my cat.final.png")) = str "my cat.final".
Proof.
  destruct (destination_key
              envOk (Some (str "thumbs"))
              (recordOf "pictures" "my+cat.final.png") []
              (fst (processRecord envOk (Some (str "thumbs"))
                                  (recordOf "pictures" "my+cat.final.png") []))
              (snd (processRecord envOk (Some (str "thumbs"))
                                  (recordOf "pictures" "my+cat.final.png") []))
              (str "my cat.final.png"))
    as (Hkeys & Hall & Hbase).
  - apply surjective_pairing.
  - reflexivity.
  - split.
    + rewrite Hkeys. reflexivity.
    + apply (Hbase (str "my cat.final") (str "png")).
      * reflexivity.
      * discriminate.
      * discriminate.
      * vm_compute. intuition discriminate.
      * reflexivity.
Defined.

(** ** Rejected requests *)

Lemma turns_no_error d key base body (outs : list (N * SharpOutput)) ev :
  In ev (flat_map (variantEvents d key base body (Ok tt)) outs) ->
  eventError ev = None.
Proof.
  intros H. apply in_flat_map in H as (so & _ & H).
  cbn in H. destruct H as [<- | [<- | [<- | []]]]; reflexivity.
Qed.

Lemma putRequests_turns_ok d key base body (outs : list (N * SharpOutput)) :
  Forall (fun p => snd p = Ok tt)
         (putRequests (flat_map (variantEvents d key base body (Ok tt)) outs)).
Proof.
  rewrite putRequests_turns. apply Forall_forall.
  intros p Hp. apply in_map_iff in Hp as (so & <- & _). reflexivity.
Qed.

(** Splits a membership in the events of a run into its cases and closes
    those in which the event is one of a complete turn. *)
Ltac split_in H :=
  repeat match type of H with
         | In _ (_ :: _) => destruct H as [H | H]
         | In _ (_ ++ _) => apply in_app_or in H as [H | H]
         | In _ [] => destruct H
         | In _ (flat_map _ _) =>
             apply turns_no_error in H; (discriminate H || congruence)
         end.

(** C5.  When the fetch of the source object of a record is rejected, the
    record has no write at all, variant or manifest.  When a variant write
    is rejected, the manifest of the record is not written: the rejected
    write is the last event of the record, and the variant writes before
    it were all accepted and are followed by nothing that undoes them. *)
Theorem no_manifest_after_failure
        (env : Env) (destBucket : option jsstring) (r : S3EventRecord)
        (h : list Event) (res : Result unit) (evs : list Event) :
  processRecord env destBucket r h = (res, evs) ->
  (forall req e,
      In (EvGetObject req (Err e)) evs ->
      res = Err e /\ putRequests evs = [])
  /\ (forall req e,
         In (EvPutObject req (Err e)) evs ->
         isVariantWrite req = true ->
         res = Err e
         /\ manifestWrites evs = []
         /\ exists before,
             evs = before ++ [EvPutObject req (Err e)]
             /\ Forall (fun p => snd p = Ok tt) (putRequests before)).
Proof.
  intros Hrun. apply processRecord_run in Hrun. split.
  - intros req e Hin.
    destruct Hrun as [e0 Hk | key e0 Hk | key body outs size later e0 es' Hk Hs Hes'
                     | key body outs res Hk Hs].
    + destruct Hin.
    + split_in Hin. inv Hin. split; reflexivity.
    + destruct Hes' as [-> | (out & ->)]; unfold variantEvents in Hin;
        split_in Hin; discriminate Hin.
    + split_in Hin; discriminate Hin.
  - intros req e Hin Hvar.
    destruct Hrun as [e0 Hk | key e0 Hk | key body outs size later e0 es' Hk Hs Hes'
                     | key body outs res Hk Hs].
    + destruct Hin.
    + split_in Hin. discriminate Hin.
    + destruct Hes' as [-> | (out & ->)]; unfold variantEvents in Hin;
        split_in Hin; try discriminate Hin.
      inv Hin. split; [reflexivity|]. split.
      * change (manifestWrites (?x :: ?l)) with (manifestWrites l).
        rewrite manifestWrites_app, manifestWrites_turns. reflexivity.
      * eexists (_ :: _ ++ [_; _]). split.
        -- cbn [app]. rewrite <- app_assoc. reflexivity.
        -- change (putRequests (?x :: ?l)) with (putRequests l).
           rewrite putRequests_app, app_nil_r. apply putRequests_turns_ok.
    + split_in Hin; try discriminate Hin.
      inv Hin. discriminate Hvar.
Qed.

Lemma no_manifest_after_failure_witness :
  putRequests
    (snd (processRecord envNoSuchKey (Some (str "thumbs"))
                        (recordOf "pictures" "missing.jpg") []))
  = []
  /\ manifestWrites
       (snd (processRecord envSecondWriteFails (Some (str "thumbs"))
                           (recordOf "pictures" "vacation.jpg") []))
     = [].
Proof.
  split.
  - apply (proj1 (no_manifest_after_failure
                    envNoSuchKey (Some (str "thumbs"))
                    (recordOf "pictures" "missing.jpg") [] _ _
                    (surjective_pairing _))
                 (fetchRequest (recordOf "pictures" "missing.jpg")
                               (str "missing.jpg"))
                 (S3Error (str "NoSuchKey"))).
    vm_compute. now left.
  - apply (proj2 (no_manifest_after_failure
                    envSecondWriteFails (Some (str "thumbs"))
                    (recordOf "pictures" "vacation.jpg") [] _ _
                    (surjective_pairing _))
                 (variantPut (Some (str "thumbs")) (str "vacation")
                             (100, jpegOutput 100))
                 (S3Error (str "SlowDown"))).
    + vm_compute. tauto.
    + reflexivity.
Defined.

(** ** Runs of the handler *)

(** In every run of a record, an event that ended with an error is the
    last event, and its error is the result of the record. *)
Lemma record_error_last d r res evs x e :
  RecordOutcome d r res evs ->
  In x evs -> eventError x = Some e ->
  res = Err e /\ exists before, evs = before ++ [x].
Proof.
  intros Hrun Hin Herr.
  destruct Hrun as [e0 Hk | key e0 Hk | key body outs size later e0 es' Hk Hs Hes'
                   | key body outs res Hk Hs].
  - destruct Hin.
  - split_in Hin. subst x. inv Herr. split; [reflexivity|]. now exists [].
  - destruct Hes' as [-> | (out & ->)]; unfold variantEvents in Hin;
      split_in Hin; subst x; try discriminate Herr; try congruence;
      inv Herr; (split; [reflexivity|]).
    + eexists (_ :: _). cbn [app]. reflexivity.
    + eexists (_ :: _ ++ [_; _]). cbn [app]. rewrite <- app_assoc. reflexivity.
  - split_in Hin; subst x; try discriminate Herr; try congruence.
    destruct res as [u|e1]; inv Herr. split; [reflexivity|].
    eexists (_ :: _ ++ [_]). cbn [app]. rewrite <- app_assoc. reflexivity.
Qed.

(** In every run of a record, the writes name the destination bucket that
    the handler read from its environment. *)
Lemma record_put_bucket d r res evs req pres :
  RecordOutcome d r res evs ->
  In (EvPutObject req pres) evs -> put_Bucket req = d.
Proof.
  intros Hrun Hin.
  assert (Hturn : forall key base body outs,
             In (EvPutObject req pres)
                (flat_map (variantEvents d key base body (Ok tt)) outs) ->
             put_Bucket req = d).
  { intros key base body outs H. apply in_flat_map in H as (so & _ & H).
    unfold variantEvents in H.
    destruct H as [H | [H | [H | []]]]; inv H. reflexivity. }
  destruct Hrun as [e0 Hk | key e0 Hk | key body outs size later e0 es' Hk Hs Hes'
                   | key body outs res Hk Hs].
  - destruct Hin.
  - destruct Hin as [H | []]. discriminate H.
  - destruct Hin as [H | Hin]; [discriminate H|].
    apply in_app_or in Hin as [Hin | Hin]; [exact (Hturn _ _ _ _ Hin)|].
    destruct Hes' as [-> | (out & ->)]; unfold variantEvents in Hin.
    + destruct Hin as [H | []]. discriminate H.
    + destruct Hin as [H | [H | [H | []]]]; inv H. reflexivity.
  - destruct Hin as [H | Hin]; [discriminate H|].
    apply in_app_or in Hin as [Hin | Hin]; [exact (Hturn _ _ _ _ Hin)|].
    destruct Hin as [H | [H | []]]; inv H. reflexivity.
Qed.

Lemma runEvents_no_error d run x : In x (runEvents d run) -> eventError x = None.
Proof.
  unfold runEvents. cbn [flat_map variantEvents app].
  intros H. repeat (destruct H as [<- | H]; [reflexivity|]). destruct H.
Qed.

Section HandlerRuns.
Variable env : Env.
Variable destBucket : option jsstring.

(** The loop over the records: the records are processed in order, each
    one to its end, until the list is exhausted or a record throws. *)
Lemma forOf_run (rs : list S3EventRecord) :
  forall (h : list Event) (res : Result unit) (es : list Event),
    forOf rs (processRecord env destBucket) h = (res, es) ->
    exists runs rest partial,
      rs = map run_record runs ++ rest
      /\ Forall (fun run => decodeKey (rawKey (run_record run))
                            = Ok (run_key run)) runs
      /\ es = flat_map (runEvents destBucket) runs ++ partial
      /\ ((res = Ok tt /\ rest = [] /\ partial = [])
          \/ (exists r later e,
                 rest = r :: later /\ res = Err e
                 /\ RecordOutcome destBucket r (Err e) partial)).
Proof.
  induction rs as [|r rs IH]; intros h res es.
  - cbn [forOf]. unfold ret. intros H; inv H.
    exists [], [], []. repeat split; auto.
  - cbn [forOf]. unfold bind at 1.
    destruct (processRecord env destBucket r h) as [[[]|e] es1] eqn:Hr;
      apply processRecord_run in Hr.
    + destruct (forOf rs (processRecord env destBucket) (h ++ es1))
        as [r2 es2] eqn:Hl.
      intros H; inv H.
      apply record_ok_run in Hr as (key & body & o50 & o100 & o200 & Hkey & ->).
      apply IH in Hl as (runs & rest & partial & -> & Hall & -> & Hend).
      exists ({| run_record := r; run_key := key; run_body := body;
                 run_out50 := o50; run_out100 := o100; run_out200 := o200 |}
              :: runs), rest, partial.
      cbn [map flat_map run_record app]. rewrite <- app_assoc.
      split; [reflexivity|]. split; [|split; [reflexivity|exact Hend]].
      constructor; [exact Hkey|exact Hall].
    + intros H; inv H.
      eexists [], (r :: rs), _. cbn [map flat_map app].
      split; [reflexivity|]. split; [constructor|]. split; [reflexivity|].
      right. now exists r, rs, e.
Qed.

Lemma handler_unfold (event : S3Event) (h : list Event) :
  handler env destBucket event h
  = (fst (forOf (Records event) (processRecord env destBucket)
                (h ++ [EvLog (LogEvent event)])),
     EvLog (LogEvent event)
     :: snd (forOf (Records event) (processRecord env destBucket)
                   (h ++ [EvLog (LogEvent event)]))).
Proof.
  unfold handler, bind, console_log.
  destruct (forOf (Records event) (processRecord env destBucket)
                  (h ++ [EvLog (LogEvent event)])) as [r es].
  reflexivity.
Qed.

(** A record that throws ends the loop: the records after it leave no
    event. *)
Lemma forOf_throw (before : list S3EventRecord) :
  forall (r : S3EventRecord) (later : list S3EventRecord) (h : list Event)
         (es1 es2 : list Event) (e : Error),
    forOf before (processRecord env destBucket) h = (Ok tt, es1) ->
    processRecord env destBucket r (h ++ es1) = (Err e, es2) ->
    forOf (before ++ r :: later) (processRecord env destBucket) h
    = (Err e, es1 ++ es2).
Proof.
  induction before as [|r0 before IH]; intros r later h es1 es2 e.
  - cbn [forOf app]. unfold ret. intros H; inv H.
    rewrite app_nil_r. intros Hr. unfold bind. now rewrite Hr.
  - cbn [forOf app]. intros H Hr. revert H. unfold bind.
    destruct (processRecord env destBucket r0 h) as [[[]|e0] es0];
      [|discriminate].
    destruct (forOf before (processRecord env destBucket) (h ++ es0))
      as [r1 es'] eqn:Hl.
    intros H; inv H. rewrite app_assoc in Hr.
    rewrite (IH r later (h ++ es0) es' es2 e Hl Hr).
    now rewrite <- app_assoc.
Qed.
End HandlerRuns.

(** The loop over the records, with the history at which the record that
    throws was processed. *)
Lemma forOf_run_at (env : Env) (destBucket : option jsstring)
      (rs : list S3EventRecord) :
  forall (h : list Event) (res : Result unit) (es : list Event),
    forOf rs (processRecord env destBucket) h = (res, es) ->
    exists runs rest partial,
      rs = map run_record runs ++ rest
      /\ Forall (fun run => decodeKey (rawKey (run_record run))
                            = Ok (run_key run)) runs
      /\ es = flat_map (runEvents destBucket) runs ++ partial
      /\ ((res = Ok tt /\ rest = [] /\ partial = [])
          \/ (exists r later e,
                 rest = r :: later /\ res = Err e
                 /\ processRecord env destBucket r
                      (h ++ flat_map (runEvents destBucket) runs)
                    = (Err e, partial))).
Proof.
  induction rs as [|r rs IH]; intros h res es.
  - cbn [forOf]. unfold ret. intros H; inv H.
    exists [], [], []. repeat split; auto.
  - cbn [forOf]. unfold bind at 1.
    destruct (processRecord env destBucket r h) as [[[]|e] es1] eqn:Hr.
    + destruct (forOf rs (processRecord env destBucket) (h ++ es1))
        as [r2 es2] eqn:Hl.
      intros H; inv H.
      apply processRecord_run, record_ok_run in Hr
        as (key & body & o50 & o100 & o200 & Hkey & ->).
      apply IH in Hl as (runs & rest & partial & -> & Hall & -> & Hend).
      exists ({| run_record := r; run_key := key; run_body := body;
                 run_out50 := o50; run_out100 := o100; run_out200 := o200 |}
              :: runs), rest, partial.
      cbn [map flat_map run_record app]. rewrite <- app_assoc.
      split; [reflexivity|]. split; [constructor; [exact Hkey|exact Hall]|].
      split; [reflexivity|].
      destruct Hend as [Hend | (r' & later & e & -> & -> & Hrun)];
        [now left|right].
      exists r', later, e. rewrite <- app_assoc in Hrun. auto.
    + intros H; inv H.
      eexists [], (r :: rs), _. cbn [map flat_map app].
      split; [reflexivity|]. split; [constructor|]. split; [reflexivity|].
      right. exists r, rs, e. rewrite app_nil_r. auto.
Qed.

Lemma putRequests_runEvents d run :
  putRequests (runEvents d run) = map (fun q => (q, Ok tt)) (runWrites d run).
Proof. reflexivity. Qed.

Lemma putRequests_runs d (runs : list RecordRun) :
  putRequests (flat_map (runEvents d) runs)
  = map (fun q => (q, Ok tt)) (flat_map (runWrites d) runs).
Proof.
  induction runs as [|run runs IH]; [reflexivity|].
  cbn [flat_map]. now rewrite putRequests_app, map_app, IH, putRequests_runEvents.
Qed.

(** In every run of a record, the writes that were issued are the first
    ones of a complete run: the variants of 50, 100 and 200, then the
    manifest. *)
Lemma record_writes_prefix d r res evs :
  RecordOutcome d r res evs ->
  exists run n,
    run_record run = r
    /\ map fst (putRequests evs) = firstn n (runWrites d run).
Proof.
  intros Hrun.
  destruct Hrun as [e0 Hk | key e0 Hk | key body outs size later e0 es' Hk Hs Hes'
                   | key body outs res Hk Hs].
  - exists {| run_record := r; run_key := []; run_body := [];
              run_out50 := noOutput; run_out100 := noOutput;
              run_out200 := noOutput |}, 0%nat. split; reflexivity.
  - exists {| run_record := r; run_key := []; run_body := [];
              run_out50 := noOutput; run_out100 := noOutput;
              run_out200 := noOutput |}, 0%nat. split; reflexivity.
  - unfold sizes in Hs.
    destruct outs as [|[s1 o1] [|[s2 o2] [|[s3 o3] outs]]]; cbn [map fst app] in Hs.
    + injection Hs as <- <-.
      destruct Hes' as [-> | (out & ->)].
      * exists {| run_record := r; run_key := key; run_body := body;
                  run_out50 := noOutput; run_out100 := noOutput;
                  run_out200 := noOutput |}, 0%nat. split; reflexivity.
      * exists {| run_record := r; run_key := key; run_body := body;
                  run_out50 := out; run_out100 := noOutput;
                  run_out200 := noOutput |}, 1%nat. split; reflexivity.
    + injection Hs as <- <- <-.
      destruct Hes' as [-> | (out & ->)].
      * exists {| run_record := r; run_key := key; run_body := body;
                  run_out50 := o1; run_out100 := noOutput;
                  run_out200 := noOutput |}, 1%nat. split; reflexivity.
      * exists {| run_record := r; run_key := key; run_body := body;
                  run_out50 := o1; run_out100 := out;
                  run_out200 := noOutput |}, 2%nat. split; reflexivity.
    + injection Hs as <- <- <- <-.
      destruct Hes' as [-> | (out & ->)].
      * exists {| run_record := r; run_key := key; run_body := body;
                  run_out50 := o1; run_out100 := o2;
                  run_out200 := noOutput |}, 2%nat. split; reflexivity.
      * exists {| run_record := r; run_key := key; run_body := body;
                  run_out50 := o1; run_out100 := o2;
                  run_out200 := out |}, 3%nat. split; reflexivity.
    + exfalso. injection Hs as _ _ _ Hs. destruct outs; discriminate Hs.
  - apply outs_of_sizes in Hs as (o50 & o100 & o200 & ->).
    exists {| run_record := r; run_key := key; run_body := body;
              run_out50 := o50; run_out100 := o100; run_out200 := o200 |},
      4%nat. split; reflexivity.
Qed.

(** C7.  In every invocation, the events after the first log are those of
    the records in the order of the batch, each record processed to its
    end under its decoded key: fetch, then for 50, 100 and 200 in this
    order the resize and the write of the variant, then the manifest
    write; the events of a record begin after the manifest write of the
    record before it was accepted.  The invocation ends with the last
    record, or with the events of the first record that throws: these are
    the events of the processing of that record alone, in one of the
    shapes of an interrupted run, and its writes are again the first ones
    of this order. *)
Theorem write_order
        (env : Env) (destBucket : option jsstring) (event : S3Event)
        (h : list Event) (res : Result unit) (evs : list Event) :
  handler env destBucket event h = (res, evs) ->
  exists runs rest partial,
    Records event = map run_record runs ++ rest
    /\ Forall (fun run => decodeKey (rawKey (run_record run))
                          = Ok (run_key run)) runs
    /\ evs = EvLog (LogEvent event)
             :: flat_map (runEvents destBucket) runs ++ partial
    /\ putRequests evs
       = map (fun q => (q, Ok tt)) (flat_map (runWrites destBucket) runs)
         ++ putRequests partial
    /\ ((res = Ok tt /\ rest = [] /\ partial = [])
        \/ (exists r later e run n,
               rest = r :: later /\ res = Err e
               /\ processRecord env destBucket r
                    ((h ++ [EvLog (LogEvent event)])
                       ++ flat_map (runEvents destBucket) runs)
                  = (Err e, partial)
               /\ RecordOutcome destBucket r (Err e) partial
               /\ run_record run = r
               /\ map fst (putRequests partial)
                  = firstn n (runWrites destBucket run))).
Proof.
  rewrite handler_unfold. intros H. inv H.
  destruct (forOf_run_at env destBucket (Records event)
                         (h ++ [EvLog (LogEvent event)]) _ _
                         (surjective_pairing _))
    as (runs & rest & partial & Hrs & Hall & Hes & Hend).
  exists runs, rest, partial. rewrite Hes.
  split; [exact Hrs|]. split; [exact Hall|]. split; [reflexivity|]. split.
  - change (putRequests (?x :: ?l)) with (putRequests l).
    now rewrite putRequests_app, putRequests_runs.
  - destruct Hend as [(Hres & -> & ->) | (r & later & e & -> & Hres & Hrun)].
    + left. auto.
    + right. pose proof (processRecord_run _ _ _ _ _ _ Hrun) as Hshape.
      destruct (record_writes_prefix _ _ _ _ Hshape) as (run & n & Hr & Hw).
      exists r, later, e, run, n. auto 7.
Qed.

Lemma write_order_witness :
  exists runs rest partial,
    Records batchWithMissing = map run_record runs ++ rest
    /\ Forall (fun run => decodeKey (rawKey (run_record run))
                          = Ok (run_key run)) runs
    /\ snd (handler envNoSuchKey (Some (str "thumbs")) batchWithMissing [])
       = EvLog (LogEvent batchWithMissing)
         :: flat_map (runEvents (Some (str "thumbs"))) runs ++ partial
    /\ putRequests
         (snd (handler envNoSuchKey (Some (str "thumbs")) batchWithMissing []))
       = map (fun q => (q, Ok tt))
             (flat_map (runWrites (Some (str "thumbs"))) runs)
         ++ putRequests partial
    /\ ((fst (handler envNoSuchKey (Some (str "thumbs")) batchWithMissing [])
         = Ok tt
         /\ rest = [] /\ partial = [])
        \/ (exists r later e run n,
               rest = r :: later
               /\ fst (handler envNoSuchKey (Some (str "thumbs"))
                               batchWithMissing [])
                  = Err e
               /\ processRecord envNoSuchKey (Some (str "thumbs")) r
                    (([] ++ [EvLog (LogEvent batchWithMissing)])
                       ++ flat_map (runEvents (Some (str "thumbs"))) runs)
                  = (Err e, partial)
               /\ RecordOutcome (Some (str "thumbs")) r (Err e) partial
               /\ run_record run = r
               /\ map fst (putRequests partial)
                  = firstn n (runWrites (Some (str "thumbs")) run))).
Proof.
  apply (write_order envNoSuchKey (Some (str "thumbs")) batchWithMissing []).
  apply surjective_pairing.
Defined.

(** C4.  Every error raised while a record is processed fails the whole
    invocation with that error and nothing is done after it: a request
    that is rejected (fetch, resize, write) is the last event of the
    invocation and its error is the result of the handler; a record that
    throws, for whatever reason, after the records before it were
    processed, ends the invocation with its error, and the records after
    it leave no event; a key that cannot be decoded throws before any
    effect of its record. *)
Theorem error_fails_invocation :
  (forall env destBucket event h res evs x e,
      handler env destBucket event h = (res, evs) ->
      In x evs -> eventError x = Some e ->
      res = Err e /\ exists before, evs = before ++ [x])
  /\ (forall env destBucket event h before r later es1 e es2,
         Records event = before ++ r :: later ->
         forOf before (processRecord env destBucket)
               (h ++ [EvLog (LogEvent event)]) = (Ok tt, es1) ->
         processRecord env destBucket r
                       ((h ++ [EvLog (LogEvent event)]) ++ es1)
         = (Err e, es2) ->
         handler env destBucket event h
         = (Err e, EvLog (LogEvent event) :: es1 ++ es2))
  /\ (forall env destBucket r h e,
         decodeKey (rawKey r) = Err e ->
         processRecord env destBucket r h = (Err e, [])).
Proof.
  split; [|split].
  - intros env destBucket event h res evs x e Hrun Hin Herr.
    rewrite handler_unfold in Hrun. inv Hrun.
    destruct (forOf_run env destBucket (Records event)
                        (h ++ [EvLog (LogEvent event)]) _ _
                        (surjective_pairing _))
      as (runs & rest & partial & _ & _ & Hes & Hend).
    rewrite Hes in Hin |- *.
    destruct Hin as [<- | Hin]; [discriminate Herr|].
    apply in_app_or in Hin as [Hin | Hin].
    + apply in_flat_map in Hin as (run & _ & Hin).
      apply runEvents_no_error in Hin. congruence.
    + destruct Hend as [(_ & _ & ->) | (r & later & e0 & _ & Hres & Hrec)];
        [destruct Hin|].
      destruct (record_error_last _ _ _ _ _ _ Hrec Hin Herr)
        as (He & before & ->).
      split; [congruence|].
      eexists (_ :: _ ++ before). cbn [app]. now rewrite <- app_assoc.
  - intros env destBucket event h before r later es1 e es2 Hrs Hbefore Hr.
    rewrite handler_unfold, Hrs.
    now rewrite (forOf_throw env destBucket before r later _ es1 es2 e Hbefore Hr).
  - intros env destBucket r h e Hkey.
    unfold processRecord, bind at 1, liftResult. fold (rawKey r).
    now rewrite Hkey.
Qed.

Lemma error_fails_invocation_witness :
  fst (handler envNoSuchKey (Some (str "thumbs")) batchWithMissing [])
  = Err (S3Error (str "NoSuchKey"))
  /\ fetchKeys (snd (handler envNoSuchKey (Some (str "thumbs"))
                             batchWithMissing []))
     = [str "vacation.jpg"; str "missing.jpg"]
  /\ processRecord envOk (Some (str "thumbs")) (recordOf "pictures" "100%.jpg") []
     = (Err URIError, []).
Proof.
  split; [|split].
  - apply (proj1 error_fails_invocation
                 envNoSuchKey (Some (str "thumbs")) batchWithMissing [] _ _
                 (EvGetObject (fetchRequest (recordOf "pictures" "missing.jpg")
                                            (str "missing.jpg"))
                              (Err (S3Error (str "NoSuchKey"))))
                 (S3Error (str "NoSuchKey"))
                 (surjective_pairing _)).
    + vm_compute. tauto.
    + reflexivity.
  - rewrite (proj1 (proj2 error_fails_invocation)
                   envNoSuchKey (Some (str "thumbs")) batchWithMissing []
                   [recordOf "pictures" "vacation.jpg"]
                   (recordOf "pictures" "missing.jpg")
                   [recordOf "pictures" "my+cat.png"]
                   (snd (processRecord envNoSuchKey (Some (str "thumbs"))
                                       (recordOf "pictures" "vacation.jpg")
                                       [EvLog (LogEvent batchWithMissing)]))
                   (S3Error (str "NoSuchKey"))
                   [EvGetObject
                      (fetchRequest (recordOf "pictures" "missing.jpg")
                                    (str "missing.jpg"))
                      (Err (S3Error (str "NoSuchKey")))]).
    + reflexivity.
    + reflexivity.
    + reflexivity.
    + reflexivity.
  - apply (proj2 (proj2 error_fails_invocation)). reflexivity.
Defined.

(** C6 (as stated, refuted).  Without [DEST_BUCKET] the handler raises no
    error at its start: on an empty batch it ends well, and on a batch of
    one upload, with an S3 that rejects a write without bucket, it fetches
    the object and resizes it to 50 before the first write is rejected. *)
Lemma missing_destination_counterexample :
  handler envStrict None {| Records := [] |} []
  = (Ok tt, [EvLog (LogEvent {| Records := [] |})])
  /\ fst (handler envStrict None
                  {| Records := [recordOf "pictures" "vacation.jpg"] |} [])
     = Err (S3Error (str "MissingRequiredParameter"))
  /\ fetchKeys (snd (handler envStrict None
                             {| Records := [recordOf "pictures" "vacation.jpg"] |}
                             []))
     = [str "vacation.jpg"]
  /\ resizeOutputs (snd (handler envStrict None
                                 {| Records := [recordOf "pictures"
                                                         "vacation.jpg"] |}
                                 []))
     = [(50, jpegOutput 50)].
Proof. repeat split. Qed.

(** A record that throws has a key that cannot be decoded, or a request
    that was rejected with the error it throws. *)
Lemma record_error_source d r e evs :
  RecordOutcome d r (Err e) evs ->
  decodeKey (rawKey r) = Err e
  \/ exists x, In x evs /\ eventError x = Some e.
Proof.
  intros Hrun. inversion Hrun as [e0 Hk | key e0 Hk
                                 | key body outs size later e0 es' Hk Hs Hes'
                                 | key body outs res0 Hk Hs]; subst.
  - now left.
  - right. exists (EvGetObject (fetchRequest r key) (Err e)).
    split; [now left|reflexivity].
  - right. destruct Hes' as [-> | (out & ->)].
    + exists (EvResize body size (Err e)). split; [|reflexivity].
      right. apply in_or_app. right. now left.
    + exists (EvPutObject (variantPut d (fst (pathParts key)) (size, out))
                          (Err e)).
      split; [|reflexivity].
      right. apply in_or_app. right. unfold variantEvents.
      right. right. now left.
  - right.
    exists (EvPutObject
              (manifestPut d key
                 (map (entryOf d (fst (pathParts key))) outs)) (Err e)).
    split; [|reflexivity].
    right. apply in_or_app. right. right. now left.
Qed.

(** C6 (amended).  The handler does not check [DEST_BUCKET] and raises no
    configuration error: when the variable is absent, an invocation on an
    empty batch ends well after its log; on another batch the handler goes
    on to the first record right after the log, fetches its object when
    its key can be decoded and throws the URIError of the key, with no
    request, when it cannot; every write of the invocation is issued
    without a bucket name; and an invocation that fails fails with the
    error of a rejected request of its trace or with the URIError of a
    key of the batch. *)
Theorem missing_destination_not_checked
        (env : Env) (event : S3Event) (h : list Event) :
  (Records event = [] ->
   handler env None event h = (Ok tt, [EvLog (LogEvent event)]))
  /\ (forall r rs key,
         Records event = r :: rs ->
         decodeKey (rawKey r) = Ok key ->
         exists res rest,
           handler env None event h
           = (res,
              EvLog (LogEvent event)
              :: EvGetObject (fetchRequest r key)
                             (s3_getObject env (h ++ [EvLog (LogEvent event)])
                                           (fetchRequest r key))
              :: rest))
  /\ (forall res evs req pres,
         handler env None event h = (res, evs) ->
         In (EvPutObject req pres) evs ->
         put_Bucket req = None)
  /\ (forall r rs e,
         Records event = r :: rs ->
         decodeKey (rawKey r) = Err e ->
         handler env None event h = (Err e, [EvLog (LogEvent event)]))
  /\ (forall e evs,
         handler env None event h = (Err e, evs) ->
         (exists x, In x evs /\ eventError x = Some e)
         \/ (exists r, In r (Records event) /\ decodeKey (rawKey r) = Err e)).
Proof.
  split; [|split; [|split; [|split]]].
  - intros Hrs. rewrite handler_unfold, Hrs. reflexivity.
  - intros r rs key Hrs Hkey. rewrite handler_unfold, Hrs.
    cbn [forOf]. unfold bind at 1 2.
    destruct (fetch_first env None r (h ++ [EvLog (LogEvent event)]) key Hkey)
      as (res1 & rest1 & ->).
    destruct res1 as [[]|e]; cbn [fst snd].
    + destruct (forOf rs (processRecord env None) _) as [r2 es2].
      cbn [fst snd app]. eauto.
    + cbn [fst snd]. eauto.
  - intros res evs req pres Hrun Hin.
    rewrite handler_unfold in Hrun. inv Hrun.
    destruct (forOf_run env None (Records event)
                        (h ++ [EvLog (LogEvent event)]) _ _
                        (surjective_pairing _))
      as (runs & rest & partial & _ & _ & Hes & Hend).
    rewrite Hes in Hin.
    destruct Hin as [H | Hin]; [discriminate H|].
    apply in_app_or in Hin as [Hin | Hin].
    + apply in_flat_map in Hin as (run & _ & Hin).
      unfold runEvents in Hin. cbn [flat_map variantEvents app] in Hin.
      repeat (destruct Hin as [H | Hin]; [inv H; reflexivity|]).
      destruct Hin.
    + destruct Hend as [(_ & _ & ->) | (r & later & e0 & _ & _ & Hrec)];
        [destruct Hin|].
      exact (record_put_bucket _ _ _ _ _ _ Hrec Hin).
  - intros r rs e Hrs Hkey. rewrite handler_unfold, Hrs.
    cbn [forOf]. unfold bind at 1 2.
    unfold processRecord, bind at 1, liftResult. fold (rawKey r).
    rewrite Hkey. reflexivity.
  - intros e evs Hrun.
    rewrite handler_unfold in Hrun.
    destruct (forOf (Records event) (processRecord env None)
                    (h ++ [EvLog (LogEvent event)])) as [res0 es] eqn:Hf.
    cbn [fst snd] in Hrun. inv Hrun.
    destruct (forOf_run env None (Records event) _ _ _ Hf)
      as (runs & rest & partial & Hrs & _ & -> & Hend).
    destruct Hend as [(Hres & _) | (r & later & e0 & -> & Hres & Hrec)];
      [discriminate Hres|].
    inv Hres.
    destruct (record_error_source _ _ _ _ Hrec) as [Hkey | (x & Hx & Herr)].
    + right. exists r. split; [|exact Hkey].
      rewrite Hrs. apply in_or_app. right. now left.
    + left. exists x. split; [|exact Herr].
      right. apply in_or_app. now right.
Qed.

Lemma missing_destination_not_checked_witness :
  handler envStrict None {| Records := [] |} []
  = (Ok tt, [EvLog (LogEvent {| Records := [] |})])
  /\ (exists res rest,
         handler envStrict None sampleBatch []
         = (res,
            EvLog (LogEvent sampleBatch)
            :: EvGetObject (fetchRequest (recordOf "pictures" "vacation.jpg")
                                         (str "vacation.jpg"))
                           (Ok [255; 216; 255])
            :: rest))
  /\ handler envStrict None {| Records := [recordOf "pictures" "100%.jpg"] |} []
     = (Err URIError,
        [EvLog (LogEvent {| Records := [recordOf "pictures" "100%.jpg"] |})])
  /\ ((exists x,
          In x (snd (handler envStrict None sampleBatch []))
          /\ eventError x = Some (S3Error (str "MissingRequiredParameter")))
      \/ (exists r,
             In r (Records sampleBatch)
             /\ decodeKey (rawKey r)
                = Err (S3Error (str "MissingRequiredParameter")))).
Proof.
  split; [|split; [|split]].
  - apply (proj1 (missing_destination_not_checked
                    envStrict {| Records := [] |} [])).
    reflexivity.
  - apply (proj1 (proj2 (missing_destination_not_checked
                           envStrict sampleBatch []))
                 (recordOf "pictures" "vacation.jpg")
                 [recordOf "pictures" "my+cat.png"]
                 (str "vacation.jpg")).
    + reflexivity.
    + reflexivity.
  - apply (proj1 (proj2 (proj2 (proj2
                   (missing_destination_not_checked
                      envStrict
                      {| Records := [recordOf "pictures" "100%.jpg"] |} []))))
                 (recordOf "pictures" "100%.jpg") []).
    + reflexivity.
    + reflexivity.
  - apply (proj2 (proj2 (proj2 (proj2
                   (missing_destination_not_checked
                      envStrict sampleBatch []))))
                 (S3Error (str "MissingRequiredParameter"))
                 (snd (handler envStrict None sampleBatch []))).
    reflexivity.
Defined.

(** * Further properties of the code *)

(** ** The Key Decoder on every name *)

Section QuantifiersInversion.
Context {A : Type}.
Variable p : N -> bool.

(** A greedy [x+] that fails had every prefix it can consume refused. *)
Lemma greedy_plus_none_inv (s : jsstring) :
  forall k : jsstring -> jsstring -> option A,
    greedy_plus p s k = None ->
    forall m rest, m <> [] -> s = m ++ rest -> forallb p m = true ->
                   k m rest = None.
Proof.
  induction s as [|c s' IH]; intros k Hg m rest Hm Hs Hp.
  - destruct m; [congruence|discriminate].
  - destruct m as [|c' m']; [congruence|].
    injection Hs as <- Hs.
    cbn [forallb] in Hp. apply andb_true_iff in Hp as [Hc Hp].
    cbn [greedy_plus] in Hg. rewrite Hc in Hg.
    destruct (greedy_plus p s' (fun m0 rest0 => k (c :: m0) rest0)) eqn:Hrec;
      [discriminate|].
    destruct m' as [|c'' m''].
    + cbn [app] in Hs. now subst s'.
    + apply (IH _ Hrec (c'' :: m'') rest); [discriminate|exact Hs|exact Hp].
Qed.

(** A greedy [x+] that succeeds answers for a prefix it can consume, and
    every longer such prefix was refused. *)
Lemma greedy_plus_some (s : jsstring) :
  forall (k : jsstring -> jsstring -> option A) (r : A),
    greedy_plus p s k = Some r ->
    exists m rest,
      s = m ++ rest /\ m <> [] /\ forallb p m = true /\ k m rest = Some r
      /\ (forall m' rest', m' <> [] -> rest = m' ++ rest' ->
                           forallb p m' = true -> k (m ++ m') rest' = None).
Proof.
  induction s as [|c s' IH]; intros k r Hg; [discriminate|].
  cbn [greedy_plus] in Hg. destruct (p c) eqn:Hc; [|discriminate].
  destruct (greedy_plus p s' (fun m0 rest0 => k (c :: m0) rest0)) as [r'|] eqn:Hrec.
  - injection Hg as ->.
    apply IH in Hrec as (m & rest & -> & Hm & Hp & Hk & Hmax).
    exists (c :: m), rest. repeat split; try assumption; try discriminate.
    cbn [forallb]. now rewrite Hc, Hp.
  - exists [c], s'. repeat split; try assumption; try discriminate.
    + cbn [forallb]. now rewrite Hc.
    + intros m' rest' Hm' Hs Hp'.
      exact (greedy_plus_none_inv s' _ Hrec m' rest' Hm' Hs Hp').
Qed.
End QuantifiersInversion.

Lemma re_dot_dot : re_dot dot = true.
Proof. reflexivity. Qed.

(** X1.  The Key Decoder returns a non-empty extension [e] with the base
    [b] exactly for the names [b ++ "." ++ e] without line terminator in
    which [b] is not empty and the only [.] that [e] may hold is its last
    character: the split is at the last [.] with text on both sides. *)
Theorem pathParts_split_iff (s b e : jsstring) :
  e <> [] ->
  (pathParts s = (b, e)
   <-> s = b ++ dot :: e /\ b <> []
       /\ existsb isLineTerminator s = false
       /\ (forall e1 e2, e = e1 ++ dot :: e2 -> e2 = [])).
Proof.
  intros He. split.
  - rewrite pathParts_unfold.
    destruct (greedy_plus re_dot s afterBase) as [r|] eqn:Hg.
    + intros ->.
      apply greedy_plus_some in Hg as (m & rest & -> & Hm & Hp & Hk & Hmax).
      apply afterBase_some in Hk as (e' & -> & He' & Hpe & Hr).
      injection Hr as <- <-.
      split; [reflexivity|]. split; [exact Hm|]. split.
      * destruct (existsb isLineTerminator (b ++ dot :: e)) eqn:Hlt;
          [|reflexivity].
        apply existsb_exists in Hlt as (x & Hx & Hlt).
        assert (Hall : forallb re_dot (b ++ dot :: e) = true).
        { rewrite forallb_app. cbn [forallb]. now rewrite Hp, Hpe. }
        rewrite forallb_forall in Hall. specialize (Hall x Hx).
        unfold re_dot in Hall. rewrite Hlt in Hall. discriminate.
      * intros e1 e2 ->. destruct e2 as [|c e2']; [reflexivity|exfalso].
        rewrite forallb_app in Hpe. apply andb_true_iff in Hpe as [Hp1 Hp2].
        cbn [forallb] in Hp2. apply andb_true_iff in Hp2 as [_ Hp2].
        assert (Hnone : afterBase (b ++ dot :: e1) (dot :: c :: e2') = None).
        { apply Hmax; [discriminate|reflexivity|].
          cbn [forallb]. now rewrite re_dot_dot, Hp1. }
        assert (Hsome : afterBase (b ++ dot :: e1) (dot :: c :: e2')
                        = Some (b ++ dot :: e1, c :: e2')).
        { apply afterBase_some. exists (c :: e2').
          repeat split; [discriminate|exact Hp2]. }
        congruence.
    + intros [= <- <-]. congruence.
  - intros (-> & Hb & Hlt & Hlast).
    apply pathParts_split; [exact Hb|exact He| |exact Hlast].
    now apply no_terminator_all_dot.
Qed.

(** The name [a.b.] is split at its first [.]: the second one has no text
    after it. *)
Lemma pathParts_split_iff_witness :
  pathParts (str "a.b.") = (str "a", str "b.")
  <-> str "a.b." = str "a" ++ dot :: str "b." /\ str "a" <> []
      /\ existsb isLineTerminator (str "a.b.") = false
      /\ (forall e1 e2, str "b." = e1 ++ dot :: e2 -> e2 = []).
Proof.
  apply (pathParts_split_iff (str "a.b.") (str "a") (str "b.")).
  discriminate.
Defined.

(** X2.  The Key Decoder returns an empty extension exactly for the names
    that hold a line terminator or have no [.] with text on both sides;
    the base is then the whole name. *)
Theorem pathParts_whole_iff (s : jsstring) :
  (snd (pathParts s) = []
   <-> existsb isLineTerminator s = true
       \/ (forall b e, s = b ++ dot :: e -> b = [] \/ e = []))
  /\ (snd (pathParts s) = [] -> fst (pathParts s) = s).
Proof.
  assert (Hshape : snd (pathParts s) = [] -> greedy_plus re_dot s afterBase = None).
  { rewrite pathParts_unfold.
    destruct (greedy_plus re_dot s afterBase) as [r|] eqn:Hg; [|reflexivity].
    apply greedy_plus_some in Hg as (m & rest & _ & _ & _ & Hk & _).
    apply afterBase_some in Hk as (e' & _ & He' & _ & ->).
    cbn [snd]. congruence. }
  split; [split|].
  - intros Hsnd. apply Hshape in Hsnd.
    destruct (existsb isLineTerminator s) eqn:Hlt; [now left|right].
    intros b e ->.
    destruct b as [|c b']; [now left|]. destruct e as [|d e']; [now right|].
    exfalso.
    apply no_terminator_all_dot in Hlt.
    rewrite forallb_app in Hlt. apply andb_true_iff in Hlt as [Hb He].
    cbn [forallb] in He. apply andb_true_iff in He as [_ He].
    assert (Hnone : afterBase (c :: b') (dot :: d :: e') = None).
    { apply (greedy_plus_none_inv re_dot _ _ Hsnd);
        [discriminate|reflexivity|exact Hb]. }
    assert (Hsome : afterBase (c :: b') (dot :: d :: e')
                    = Some (c :: b', d :: e')).
    { apply afterBase_some. exists (d :: e').
      repeat split; [discriminate|exact He]. }
    congruence.
  - intros [Hlt | Hno].
    + now rewrite (pathParts_line_terminator s Hlt).
    + now rewrite (pathParts_no_split s Hno).
  - intros Hsnd. apply Hshape in Hsnd.
    rewrite pathParts_unfold, Hsnd. reflexivity.
Qed.

Lemma pathParts_whole_iff_witness :
  fst (pathParts (str "name.")) = str "name.".
Proof.
  apply (proj2 (pathParts_whole_iff (str "name."))). reflexivity.
Defined.

(** The split of a key that ends with one of the suffixes of the
    notification filters. *)
Lemma pathParts_suffix (stem suffix : jsstring) :
  In suffix notificationSuffixes ->
  stem <> [] -> existsb isLineTerminator stem = false ->
  pathParts (stem ++ suffix) = (stem, tl suffix).
Proof.
  intros Hin Hstem Hlt.
  assert (Hcases : suffix = dot :: str "jpg" \/ suffix = dot :: str "jpeg"
                   \/ suffix = dot :: str "png").
  { unfold notificationSuffixes in Hin. cbn [In] in Hin.
    destruct Hin as [<- | [<- | [<- | []]]]; auto. }
  apply no_terminator_all_dot in Hlt.
  destruct Hcases as [-> | [-> | ->]]; cbn [tl];
    (apply pathParts_split;
     [exact Hstem
     |discriminate
     |rewrite forallb_app, Hlt; reflexivity
     |intros e1 e2 He; exfalso;
      assert (Hd : In dot (e1 ++ dot :: e2))
        by (apply in_or_app; right; now left);
      rewrite <- He in Hd; vm_compute in Hd; intuition discriminate]).
Qed.

(** X3.  The construct subscribes the function to keys that end in [.jpg],
    [.jpeg] or [.png]: for such a key with some text before the suffix and
    no line terminator, the Key Decoder returns that text as the base and
    the suffix without its [.] as the extension; the key that is the bare
    suffix comes back whole. *)
Theorem notified_key_split (stem suffix : jsstring) :
  In suffix notificationSuffixes ->
  (stem <> [] -> existsb isLineTerminator stem = false ->
   pathParts (stem ++ suffix) = (stem, tl suffix))
  /\ pathParts suffix = (suffix, []).
Proof.
  intros Hin. split.
  - now apply pathParts_suffix.
  - unfold notificationSuffixes in Hin. cbn [In] in Hin.
    destruct Hin as [<- | [<- | [<- | []]]]; reflexivity.
Qed.

Lemma notified_key_split_witness :
  pathParts (str "holiday/beach.2021" ++ str ".jpeg")
  = (str "holiday/beach.2021", str "jpeg").
Proof.
  apply (proj1 (notified_key_split (str "holiday/beach.2021") (str ".jpeg")
                                   (or_intror (or_introl eq_refl)))).
  - discriminate.
  - reflexivity.
Defined.

(** ** Keys and buckets of the requests *)

(** The base is a prefix of the name; what follows it is nothing or begins
    with a [.]. *)
Lemma pathParts_base_prefix (s : jsstring) :
  exists t, s = fst (pathParts s) ++ t /\ (t = [] \/ exists e, t = dot :: e).
Proof.
  rewrite pathParts_unfold.
  destruct (greedy_plus re_dot s afterBase) as [r|] eqn:Hg.
  - apply greedy_plus_some in Hg as (m & rest & -> & _ & _ & Hk & _).
    apply afterBase_some in Hk as (e & -> & _ & _ & ->).
    exists (dot :: e). split; [reflexivity|]. right. now exists e.
  - exists []. split; [now rewrite app_nil_r|now left].
Qed.

Lemma runWrites_keys_NoDup d (run : RecordRun) :
  NoDup (map put_Key (runWrites d run)).
Proof.
  unfold runWrites. cbn [map put_Key variantPut manifestPut fst snd].
  destruct (pathParts_base_prefix (run_key run)) as (t & Hkey & Ht).
  remember (fst (pathParts (run_key run))) as base eqn:Hbase. clear Hbase.
  assert (H50 : forall f, destKeyOf base 50 f = base ++ str "-50x50." ++ f)
    by reflexivity.
  assert (H100 : forall f, destKeyOf base 100 f = base ++ str "-100x100." ++ f)
    by reflexivity.
  assert (H200 : forall f, destKeyOf base 200 f = base ++ str "-200x200." ++ f)
    by reflexivity.
  assert (Hman : exists u, run_key run ++ str ".thumbnails.json"
                           = base ++ dot :: u).
  { rewrite Hkey, <- app_assoc.
    destruct Ht as [-> | (e & ->)]; eexists; reflexivity. }
  destruct Hman as (u & ->). rewrite H50, H100, H200.
  repeat constructor; cbn [In]; intros H;
    repeat (destruct H as [H | H]; [apply app_inv_head in H; discriminate H|]);
    exact H.
Qed.

Lemma NoDup_firstn {A} (n : nat) (l : list A) : NoDup l -> NoDup (firstn n l).
Proof.
  revert l. induction n as [|n IH]; intros l Hl; [constructor|].
  destruct l as [|x l]; [constructor|]. cbn [firstn].
  inversion Hl as [|? ? Hx Hl']; subst. constructor; [|now apply IH].
  intros Hin. apply Hx. revert Hin. clear. revert l.
  induction n as [|n IH]; intros l Hin; [destruct Hin|].
  destruct l as [|y l]; [destruct Hin|].
  destruct Hin as [-> | Hin]; [now left|right; now apply IH].
Qed.

(** X4.  The writes of one record never hit the same key twice: the three
    variants and the manifest go to four different keys, whatever the key
    of the source and the formats chosen by the encoder, so that no write
    of a record replaces another one. *)
Theorem record_write_keys_distinct
        (env : Env) (destBucket : option jsstring) (r : S3EventRecord)
        (h : list Event) (res : Result unit) (evs : list Event) :
  processRecord env destBucket r h = (res, evs) ->
  NoDup (writeKeys evs).
Proof.
  intros Hrun. apply processRecord_run, (record_writes_prefix destBucket) in Hrun
    as (run & n & _ & Hw).
  unfold writeKeys. rewrite <- (map_map fst put_Key), Hw, <- firstn_map.
  apply NoDup_firstn, runWrites_keys_NoDup.
Qed.

Lemma record_write_keys_distinct_witness :
  NoDup (writeKeys (snd (processRecord envOk (Some (str "thumbs"))
                                       (recordOf "pictures" "vacation.jpg")
                                       []))).
Proof.
  apply (record_write_keys_distinct
           envOk (Some (str "thumbs")) (recordOf "pictures" "vacation.jpg") []
           (fst (processRecord envOk (Some (str "thumbs"))
                               (recordOf "pictures" "vacation.jpg") []))).
  apply surjective_pairing.
Defined.

Lemma record_fetch d r res evs req gres :
  RecordOutcome d r res evs ->
  In (EvGetObject req gres) evs ->
  exists key, decodeKey (rawKey r) = Ok key /\ req = fetchRequest r key.
Proof.
  intros Hrun Hin.
  assert (Hturn : forall key base body outs,
             ~ In (EvGetObject req gres)
                  (flat_map (variantEvents d key base body (Ok tt)) outs)).
  { intros key base body outs H. apply in_flat_map in H as (so & _ & H).
    unfold variantEvents in H.
    destruct H as [H | [H | [H | []]]]; discriminate H. }
  destruct Hrun as [e0 Hk | key e0 Hk | key body outs size later e0 es' Hk Hs Hes'
                   | key body outs res Hk Hs].
  - destruct Hin.
  - destruct Hin as [H | []]. inv H. now exists key.
  - destruct Hin as [H | Hin]; [inv H; now exists key|].
    apply in_app_or in Hin as [Hin | Hin]; [now apply Hturn in Hin|].
    destruct Hes' as [-> | (out & ->)]; unfold variantEvents in Hin.
    + destruct Hin as [H | []]. discriminate H.
    + destruct Hin as [H | [H | [H | []]]]; discriminate H.
  - destruct Hin as [H | Hin]; [inv H; now exists key|].
    apply in_app_or in Hin as [Hin | Hin]; [now apply Hturn in Hin|].
    destruct Hin as [H | [H | []]]; discriminate H.
Qed.

(** X5.  In every invocation, every write names the bucket of
    [DEST_BUCKET], and every fetch names the bucket of a record of the
    batch together with the decoded key of that record: the handler reads
    no other object and writes to no other bucket. *)
Theorem requests_buckets
        (env : Env) (destBucket : option jsstring) (event : S3Event)
        (h : list Event) (res : Result unit) (evs : list Event) :
  handler env destBucket event h = (res, evs) ->
  (forall req pres,
      In (EvPutObject req pres) evs -> put_Bucket req = destBucket)
  /\ (forall req gres,
         In (EvGetObject req gres) evs ->
         exists r,
           In r (Records event)
           /\ get_Bucket req = bucket_name (bucket (s3 r))
           /\ decodeKey (rawKey r) = Ok (get_Key req)).
Proof.
  intros Hrun. rewrite handler_unfold in Hrun. inv Hrun.
  destruct (forOf_run env destBucket (Records event)
                      (h ++ [EvLog (LogEvent event)]) _ _
                      (surjective_pairing _))
    as (runs & rest & partial & Hrs & Hall & Hes & Hend).
  rewrite Hes. split.
  - intros req pres Hin.
    destruct Hin as [H | Hin]; [discriminate H|].
    apply in_app_or in Hin as [Hin | Hin].
    + apply in_flat_map in Hin as (run & _ & Hin).
      unfold runEvents in Hin. cbn [flat_map variantEvents app] in Hin.
      repeat (destruct Hin as [H | Hin]; [inv H; reflexivity|]).
      destruct Hin.
    + destruct Hend as [(_ & _ & ->) | (r & later & e0 & _ & _ & Hrec)];
        [destruct Hin|].
      exact (record_put_bucket _ _ _ _ _ _ Hrec Hin).
  - intros req gres Hin.
    destruct Hin as [H | Hin]; [discriminate H|].
    apply in_app_or in Hin as [Hin | Hin].
    + apply in_flat_map in Hin as (run & Hrun & Hin).
      rewrite Forall_forall in Hall. specialize (Hall run Hrun).
      unfold runEvents in Hin. cbn [flat_map variantEvents app] in Hin.
      destruct Hin as [H | Hin].
      * inv H. exists (run_record run). split; [|split; [reflexivity|exact Hall]].
        rewrite Hrs. apply in_or_app. left. now apply in_map.
      * repeat (destruct Hin as [H | Hin]; [discriminate H|]). destruct Hin.
    + destruct Hend as [(_ & _ & ->) | (r & later & e0 & -> & _ & Hrec)];
        [destruct Hin|].
      destruct (record_fetch _ _ _ _ _ _ Hrec Hin) as (key & Hkey & ->).
      exists r. split; [|split; [reflexivity|exact Hkey]].
      rewrite Hrs. apply in_or_app. right. now left.
Qed.

Lemma requests_buckets_witness :
  exists r,
    In r (Records sampleBatch)
    /\ str "pictures" = bucket_name (bucket (s3 r))
    /\ decodeKey (rawKey r) = Ok (str "my cat.png").
Proof.
  apply (proj2 (requests_buckets
                  envOk (Some (str "thumbs")) sampleBatch []
                  (fst (handler envOk (Some (str "thumbs")) sampleBatch []))
                  (snd (handler envOk (Some (str "thumbs")) sampleBatch []))
                  (surjective_pairing _))
               (fetchRequest (recordOf "pictures" "my+cat.png")
                             (str "my cat.png"))
               (Ok [255; 216; 255])).
  vm_compute. tauto.
Defined.

(** ** The fetches of an invocation *)

Lemma fetchKeys_app (a b : list Event) :
  fetchKeys (a ++ b) = fetchKeys a ++ fetchKeys b.
Proof.
  induction a as [|ev a IH]; [reflexivity|].
  destruct ev; cbn [app fetchKeys]; rewrite IH; reflexivity.
Qed.

Lemma fetchKeys_turns d key base body res (outs : list (N * SharpOutput)) :
  fetchKeys (flat_map (variantEvents d key base body res) outs) = [].
Proof.
  induction outs as [|so outs IH]; [reflexivity|].
  cbn [flat_map]. now rewrite fetchKeys_app, IH.
Qed.

Lemma fetchKeys_runs d (runs : list RecordRun) :
  fetchKeys (flat_map (runEvents d) runs) = map run_key runs.
Proof.
  induction runs as [|run runs IH]; [reflexivity|].
  cbn [flat_map map]. rewrite fetchKeys_app, IH. reflexivity.
Qed.

(** A record fetches nothing when its key cannot be decoded, and else
    once, under its decoded key. *)
Lemma record_fetchKeys d r res evs :
  RecordOutcome d r res evs ->
  (fetchKeys evs = [] /\ exists e, decodeKey (rawKey r) = Err e)
  \/ (exists key, decodeKey (rawKey r) = Ok key /\ fetchKeys evs = [key]).
Proof.
  intros Hrun.
  destruct Hrun as [e0 Hk | key e0 Hk | key body outs size later e0 es' Hk Hs Hes'
                   | key body outs res Hk Hs].
  - left. split; [reflexivity|now exists e0].
  - right. exists key. split; [exact Hk|reflexivity].
  - right. exists key. split; [exact Hk|].
    cbn [fetchKeys get_Key fetchRequest]. rewrite fetchKeys_app, fetchKeys_turns.
    destruct Hes' as [-> | (out & ->)]; reflexivity.
  - right. exists key. split; [exact Hk|].
    cbn [fetchKeys get_Key fetchRequest]. rewrite fetchKeys_app, fetchKeys_turns.
    reflexivity.
Qed.

Lemma decoded_runs (runs : list RecordRun) :
  Forall (fun run => decodeKey (rawKey (run_record run)) = Ok (run_key run))
         runs ->
  map (fun r => decodeKey (rawKey r)) (map run_record runs)
  = map Ok (map run_key runs).
Proof.
  induction 1 as [|run runs Hrun _ IH]; [reflexivity|].
  cbn [map]. now rewrite Hrun, IH.
Qed.

(** X6.  In every invocation the objects are fetched once each, in the
    order of the batch and under their decoded keys: the fetched keys are
    the decoded keys of the first [n] records, for the number [n] of
    records that were begun with a key that could be decoded.  When the
    invocation ends well, every record was fetched and the invocation
    issued four writes per record. *)
Theorem fetches_in_order
        (env : Env) (destBucket : option jsstring) (event : S3Event)
        (h : list Event) (res : Result unit) (evs : list Event) :
  handler env destBucket event h = (res, evs) ->
  exists n,
    map Ok (fetchKeys evs) = firstn n (decodedKeys event)
    /\ (res = Ok tt ->
        n = List.length (Records event)
        /\ List.length (putRequests evs) = (4 * List.length (Records event))%nat).
Proof.
  intros Hrun. rewrite handler_unfold in Hrun.
  destruct (forOf (Records event) (processRecord env destBucket)
                  (h ++ [EvLog (LogEvent event)])) as [res0 es] eqn:Hf.
  cbn [fst snd] in Hrun. inv Hrun.
  destruct (forOf_run env destBucket (Records event) _ _ _ Hf)
    as (runs & rest & partial & Hrs & Hall & Hes & Hend).
  rewrite Hes. unfold decodedKeys. rewrite Hrs, map_app, (decoded_runs runs Hall).
  change (fetchKeys (?x :: ?l)) with (fetchKeys l).
  change (putRequests (?x :: ?l)) with (putRequests l).
  rewrite fetchKeys_app, fetchKeys_runs, map_app, putRequests_app,
    putRequests_runs, length_app, length_map.
  assert (Hlen : List.length (map Ok (map run_key runs)) = List.length runs)
    by now rewrite !length_map.
  assert (Hwrites : List.length (flat_map (runWrites destBucket) runs)
                    = (4 * List.length runs)%nat).
  { clear. induction runs as [|run runs IH]; [reflexivity|].
    cbn [flat_map]. rewrite length_app, IH. cbn [runWrites List.length]. lia. }
  destruct Hend as [(Hres & -> & ->) | (r & later & e0 & -> & Hres & Hrec)].
  - exists (List.length runs). split.
    + cbn [map fetchKeys]. rewrite !app_nil_r, <- Hlen. now rewrite firstn_all.
    + intros _. cbn [putRequests List.length].
      rewrite app_nil_r, length_map, Hwrites. lia.
  - destruct (record_fetchKeys _ _ _ _ Hrec) as [(-> & _) | (key & Hkey & ->)].
    + exists (List.length runs). split; [|rewrite Hres; discriminate].
      cbn [map]. rewrite app_nil_r, <- Hlen.
      now rewrite firstn_app, firstn_all, Nat.sub_diag, firstn_O, app_nil_r.
    + exists (S (List.length runs)). split; [|rewrite Hres; discriminate].
      cbn [map]. rewrite Hkey.
      rewrite firstn_app, Hlen.
      rewrite firstn_all2 by (rewrite Hlen; lia).
      replace (S (List.length runs) - List.length runs)%nat with 1%nat by lia.
      reflexivity.
Qed.

Lemma fetches_in_order_witness :
  exists n,
    map Ok (fetchKeys (snd (handler envNoSuchKey (Some (str "thumbs"))
                                    batchWithMissing [])))
    = firstn n (decodedKeys batchWithMissing)
    /\ (fst (handler envNoSuchKey (Some (str "thumbs")) batchWithMissing [])
        = Ok tt ->
        n = List.length (Records batchWithMissing)
        /\ List.length (putRequests
                     (snd (handler envNoSuchKey (Some (str "thumbs"))
                                   batchWithMissing [])))
           = (4 * List.length (Records batchWithMissing))%nat).
Proof.
  apply (fetches_in_order envNoSuchKey (Some (str "thumbs")) batchWithMissing []).
  apply surjective_pairing.
Defined.

(** ** Decoding of keys: plain keys, escapes of every character *)

(** X7.  A raw key without [%] never makes the handler throw: it decodes
    to itself with every [+] turned into a space, character for
    character. *)
Theorem decodeKey_no_percent (raw : jsstring) :
  forallb (fun c => negb (c =? ch "%")) raw = true ->
  decodeKey raw = Ok (map plusToSpace raw).
Proof.
  unfold decodeKey, decodeURIComponent. rewrite replace_plus_map.
  induction raw as [|c raw IH]; [reflexivity|].
  cbn [forallb map]. intros H. apply andb_true_iff in H as [Hc Hraw].
  apply negb_true_iff in Hc.
  rewrite Decode_plain, (IH Hraw); [reflexivity|].
  unfold plusToSpace. destruct (c =? ch "+"); [reflexivity|exact Hc].
Qed.

Lemma decodeKey_no_percent_witness :
  decodeKey (str "summer+2021/beach+day.jpg")
  = Ok (map plusToSpace (str "summer+2021/beach+day.jpg")).
Proof.
  apply (decodeKey_no_percent (str "summer+2021/beach+day.jpg")).
  reflexivity.
Defined.

Ltac div_lia := zify; Z.to_euclidean_division_equations; lia.

Lemma hexValue_hexUpper (d : N) : d < 16 -> hexValue (hexUpper d) = Some d.
Proof.
  intros H.
  assert (Hd : d = 0 \/ d = 1 \/ d = 2 \/ d = 3 \/ d = 4 \/ d = 5 \/ d = 6
               \/ d = 7 \/ d = 8 \/ d = 9 \/ d = 10 \/ d = 11 \/ d = 12
               \/ d = 13 \/ d = 14 \/ d = 15) by lia.
  repeat (destruct Hd as [-> | Hd]; [reflexivity|]). now subst d.
Qed.

Lemma readHex2_percentEncode (B : N) (rest : jsstring) :
  B < 256 ->
  readHex2 (hexUpper (B / 16) :: hexUpper (B mod 16) :: rest) = Some (B, rest).
Proof.
  intros H. unfold readHex2.
  rewrite !hexValue_hexUpper by div_lia.
  f_equal. f_equal. div_lia.
Qed.

Lemma plusToSpace_hexUpper (d : N) : d < 16 -> plusToSpace (hexUpper d) = hexUpper d.
Proof. intros H. exact (hexValue_not_plus _ _ (hexValue_hexUpper d H)). Qed.

Lemma plusToSpace_percentEncode (Bs : list N) :
  Forall (fun B => B < 256) Bs ->
  map plusToSpace (flat_map percentEncode Bs) = flat_map percentEncode Bs.
Proof.
  induction 1 as [|B Bs HB _ IH]; [reflexivity|].
  cbn [flat_map percentEncode app map]. rewrite IH.
  rewrite !plusToSpace_hexUpper by div_lia. reflexivity.
Qed.

Lemma readOctets_percentEncode (Bs : list N) (rest : jsstring) :
  Forall (fun B => B < 256) Bs ->
  readOctets (List.length Bs) (flat_map percentEncode Bs ++ rest) = Some Bs.
Proof.
  induction 1 as [|B Bs HB _ IH]; [reflexivity|].
  cbn [List.length flat_map percentEncode app readOctets].
  rewrite N.eqb_refl, (readHex2_percentEncode B _ HB), IH. reflexivity.
Qed.

(** The steps of the index over what an escape has consumed. *)
Lemma Decode_skip (g : jsstring) (x : jsstring) :
  Decode (List.length g) (g ++ x) = Decode 0 x.
Proof.
  induction g as [|c g IH]; [reflexivity|exact IH].
Qed.

Lemma length_percentEncode (Bs : list N) :
  List.length (flat_map percentEncode Bs) = (3 * List.length Bs)%nat.
Proof.
  induction Bs as [|B Bs IH]; [reflexivity|].
  cbn [flat_map percentEncode app List.length]. rewrite IH. lia.
Qed.

Lemma Decode_escape_unfold (s1 : jsstring) :
  Decode 0 (ch "%" :: s1)
  = match readHex2 s1 with
    | None => Err URIError
    | Some (B, s2) =>
        match leadingOnes B with
        | 0%nat => mapResult (cons B) (Decode 2 s1)
        | 1%nat => Err URIError
        | S (S (S (S (S _)))) => Err URIError
        | S j =>
            match readOctets j s2 with
            | None => Err URIError
            | Some Bs =>
                match utf8CodePoint (B :: Bs) with
                | None => Err URIError
                | Some V =>
                    mapResult (app (utf16Encode V)) (Decode (2 + 3 * j) s1)
                end
            end
        end
    end.
Proof. reflexivity. Qed.

(** An escaped UTF-8 sequence of two to four octets decodes to the UTF-16
    form of its code point. *)
Lemma Decode_sequence (B0 : N) (Bs : list N) (V : N) (j : nat)
      (tail : jsstring) :
  B0 < 256 -> Forall (fun B => B < 256) Bs ->
  List.length Bs = j -> (1 <= j <= 3)%nat ->
  leadingOnes B0 = S j ->
  utf8CodePoint (B0 :: Bs) = Some V ->
  Decode 0 (flat_map percentEncode (B0 :: Bs) ++ tail)
  = mapResult (app (utf16Encode V)) (Decode 0 tail).
Proof.
  intros HB0 HBs Hlen Hj Hlead Hcp.
  cbn [flat_map percentEncode app].
  rewrite Decode_escape_unfold, (readHex2_percentEncode B0 _ HB0), Hlead.
  assert (Hoct : readOctets j (flat_map percentEncode Bs ++ tail) = Some Bs)
    by (rewrite <- Hlen; now apply readOctets_percentEncode).
  assert (Hskip : Decode (2 + 3 * j)
                         (hexUpper (B0 / 16) :: hexUpper (B0 mod 16)
                          :: flat_map percentEncode Bs ++ tail)
                  = Decode 0 tail).
  { change (hexUpper (B0 / 16) :: hexUpper (B0 mod 16)
            :: flat_map percentEncode Bs ++ tail)
      with (([hexUpper (B0 / 16); hexUpper (B0 mod 16)]
             ++ flat_map percentEncode Bs) ++ tail).
    rewrite <- Decode_skip
      with (g := [hexUpper (B0 / 16); hexUpper (B0 mod 16)]
                 ++ flat_map percentEncode Bs).
    f_equal. rewrite length_app, length_percentEncode, Hlen. reflexivity. }
  destruct j as [|[|[|[|j]]]]; try lia; cbv beta iota;
    rewrite Hoct, Hcp, Hskip; reflexivity.
Qed.

Lemma utf8Encode_octets (V : N) :
  V < 1114112 -> Forall (fun B => B < 256) (utf8Encode V).
Proof.
  intros H. unfold utf8Encode.
  destruct (V <? 128) eqn:H1; [|destruct (V <? 2048) eqn:H2;
                                 [|destruct (V <? 65536) eqn:H3]];
    rewrite ?N.ltb_lt, ?N.ltb_ge in *;
    repeat constructor; div_lia.
Qed.

Ltac bool_true := symmetry; first [apply N.leb_le | apply N.ltb_lt]; div_lia.

Lemma leadingOnes_2 (B : N) : 192 <= B -> B < 224 -> leadingOnes B = 2%nat.
Proof.
  intros H1 H2. unfold leadingOnes.
  replace (B <? 128) with false by (symmetry; apply N.ltb_ge; lia).
  replace (B <? 192) with false by (symmetry; apply N.ltb_ge; lia).
  replace (B <? 224) with true by (symmetry; apply N.ltb_lt; lia).
  reflexivity.
Qed.

Lemma leadingOnes_3 (B : N) : 224 <= B -> B < 240 -> leadingOnes B = 3%nat.
Proof.
  intros H1 H2. unfold leadingOnes.
  replace (B <? 128) with false by (symmetry; apply N.ltb_ge; lia).
  replace (B <? 192) with false by (symmetry; apply N.ltb_ge; lia).
  replace (B <? 224) with false by (symmetry; apply N.ltb_ge; lia).
  replace (B <? 240) with true by (symmetry; apply N.ltb_lt; lia).
  reflexivity.
Qed.

Lemma leadingOnes_4 (B : N) : 240 <= B -> B < 248 -> leadingOnes B = 4%nat.
Proof.
  intros H1 H2. unfold leadingOnes.
  replace (B <? 128) with false by (symmetry; apply N.ltb_ge; lia).
  replace (B <? 192) with false by (symmetry; apply N.ltb_ge; lia).
  replace (B <? 224) with false by (symmetry; apply N.ltb_ge; lia).
  replace (B <? 240) with false by (symmetry; apply N.ltb_ge; lia).
  replace (B <? 248) with true by (symmetry; apply N.ltb_lt; lia).
  reflexivity.
Qed.

(** The escapes of the UTF-8 encoding of a character decode to the
    character. *)
Lemma Decode_escaped_character (V : N) (tail : jsstring) :
  isScalarValue V = true ->
  Decode 0 (flat_map percentEncode (utf8Encode V) ++ tail)
  = mapResult (app (utf16Encode V)) (Decode 0 tail).
Proof.
  intros Hs.
  assert (Hrange : V < 55296 \/ (57343 < V /\ V < 1114112)).
  { unfold isScalarValue in Hs. apply orb_true_iff in Hs as [H | H].
    - left. now apply N.ltb_lt.
    - right. apply andb_true_iff in H as [H1 H2].
      split; now apply N.ltb_lt. }
  assert (Hmax : V < 1114112) by lia.
  pose proof (utf8Encode_octets V Hmax) as Hoct.
  unfold utf8Encode in *.
  destruct (V <? 128) eqn:H1; [|destruct (V <? 2048) eqn:H2;
                                 [|destruct (V <? 65536) eqn:H3]];
    rewrite ?N.ltb_lt, ?N.ltb_ge in *.
  - cbn [flat_map percentEncode app].
    rewrite (Decode_ascii_escape _ _ (V / 16) (V mod 16));
      [|apply hexValue_hexUpper; div_lia|apply hexValue_hexUpper; div_lia
       |apply N.ltb_lt; div_lia].
    replace (16 * (V / 16) + V mod 16) with V by div_lia.
    unfold utf16Encode. replace (V <? 65536) with true by bool_true.
    reflexivity.
  - inversion Hoct as [|? ? HB0 HBs]; subst.
    apply (Decode_sequence _ _ V 1%nat); try assumption; try reflexivity;
      try lia.
    + apply leadingOnes_2; div_lia.
    + unfold utf8CodePoint, isContinuation.
      replace ((192 + V / 64 - 192) * 64 + (128 + V mod 64 - 128)) with V
        by div_lia.
      replace (128 <=? 128 + V mod 64) with true by bool_true.
      replace (128 + V mod 64 <? 192) with true by bool_true.
      replace (128 <=? V) with true by bool_true.
      reflexivity.
  - inversion Hoct as [|? ? HB0 HBs]; subst.
    apply (Decode_sequence _ _ V 2%nat); try assumption; try reflexivity;
      try lia.
    + apply leadingOnes_3; div_lia.
    + unfold utf8CodePoint, isContinuation.
      replace ((224 + V / 4096 - 224) * 4096 + (128 + (V / 64) mod 64 - 128) * 64
               + (128 + V mod 64 - 128)) with V by div_lia.
      replace (128 <=? 128 + (V / 64) mod 64) with true by bool_true.
      replace (128 + (V / 64) mod 64 <? 192) with true by bool_true.
      replace (128 <=? 128 + V mod 64) with true by bool_true.
      replace (128 + V mod 64 <? 192) with true by bool_true.
      replace (2048 <=? V) with true by bool_true.
      replace ((55296 <=? V) && (V <=? 57343)) with false; [reflexivity|].
      symmetry. apply andb_false_iff.
      destruct Hrange as [Hr | [Hr _]];
        [left; apply N.leb_gt; lia|right; apply N.leb_gt; lia].
  - inversion Hoct as [|? ? HB0 HBs]; subst.
    apply (Decode_sequence _ _ V 3%nat); try assumption; try reflexivity;
      try lia.
    + apply leadingOnes_4; div_lia.
    + unfold utf8CodePoint, isContinuation.
      replace ((240 + V / 262144 - 240) * 262144
               + (128 + (V / 4096) mod 64 - 128) * 4096
               + (128 + (V / 64) mod 64 - 128) * 64
               + (128 + V mod 64 - 128)) with V by div_lia.
      replace (128 <=? 128 + (V / 4096) mod 64) with true by bool_true.
      replace (128 + (V / 4096) mod 64 <? 192) with true by bool_true.
      replace (128 <=? 128 + (V / 64) mod 64) with true by bool_true.
      replace (128 + (V / 64) mod 64 <? 192) with true by bool_true.
      replace (128 <=? 128 + V mod 64) with true by bool_true.
      replace (128 + V mod 64 <? 192) with true by bool_true.
      replace (65536 <=? V) with true by bool_true.
      replace (V <=? 1114111) with true by bool_true.
      reflexivity.
Qed.

(** X8.  The decoding of the key undoes the URL encoding of forms for
    every key: whatever characters the encoder leaves as they are (none of
    them [%], [+] or above ASCII), the encoded form of a sequence of
    Unicode characters decodes to the UTF-16 string of these characters.
    No upload has a key that the handler cannot recover. *)
Theorem decodeKey_encodeKey (plain : N -> bool) (cps : list N) :
  (forall c, plain c = true -> c < 128 /\ c <> ch "%" /\ c <> ch "+") ->
  forallb isScalarValue cps = true ->
  decodeKey (encodeKey plain cps) = Ok (flat_map utf16Encode cps).
Proof.
  intros Hplain. unfold decodeKey, decodeURIComponent, encodeKey.
  rewrite replace_plus_map.
  induction cps as [|V cps IH]; [reflexivity|].
  cbn [forallb flat_map]. intros H. apply andb_true_iff in H as [HV Hcps].
  specialize (IH Hcps). rewrite map_app.
  unfold encodeCodePoint at 1.
  destruct (V =? ch " ") eqn:Hsp; [|destruct (plain V) eqn:Hpl].
  - apply N.eqb_eq in Hsp. subst V.
    cbn [map app]. change (plusToSpace (ch "+")) with (ch " ").
    rewrite Decode_plain by reflexivity. rewrite IH. reflexivity.
  - destruct (Hplain V Hpl) as (Hlt & Hpc & Hpp).
    cbn [map app]. unfold plusToSpace at 1.
    replace (V =? ch "+") with false by (symmetry; now apply N.eqb_neq).
    rewrite Decode_plain by now apply N.eqb_neq.
    rewrite IH. unfold utf16Encode at 2.
    replace (V <? 65536) with true by bool_true. reflexivity.
  - assert (Hmax : V < 1114112).
    { unfold isScalarValue in HV. apply orb_true_iff in HV as [H | H].
      - apply N.ltb_lt in H. lia.
      - apply andb_true_iff in H as [_ H]. now apply N.ltb_lt in H. }
    rewrite (plusToSpace_percentEncode _ (utf8Encode_octets V Hmax)).
    rewrite (Decode_escaped_character V _ HV), IH. reflexivity.
Qed.

Lemma decodeKey_encodeKey_witness :
  decodeKey (encodeKey urlPlain [ch "a"; ch " "; ch "+"; 233; 8364; 128512])
  = Ok (flat_map utf16Encode [ch "a"; ch " "; ch "+"; 233; 8364; 128512]).
Proof.
  apply (decodeKey_encodeKey urlPlain).
  - intros c Hc. unfold urlPlain in Hc.
    change (ch "-") with 45 in Hc. change (ch "_") with 95 in Hc.
    change (ch ".") with 46 in Hc. change (ch "*") with 42 in Hc.
    change (ch "/") with 47 in Hc.
    rewrite ?orb_true_iff, ?andb_true_iff, ?N.leb_le, ?N.eqb_eq in Hc.
    change (c < 128 /\ c <> 37 /\ c <> 43). lia.
  - reflexivity.
Defined.

(** ** Keys that cannot be decoded *)

Lemma readHex2_short (t : jsstring) :
  (List.length t < 2)%nat -> readHex2 t = None.
Proof.
  destruct t as [|a [|b t]]; cbn [List.length]; intros H;
    [reflexivity|reflexivity|lia].
Qed.

Lemma readHex2_before_percent (s1 t : jsstring) (B : N) (s2' : jsstring) :
  (List.length t < 2)%nat ->
  readHex2 (s1 ++ ch "%" :: t) = Some (B, s2') ->
  exists h l s2, s1 = h :: l :: s2 /\ s2' = s2 ++ ch "%" :: t.
Proof.
  intros Ht H. destruct s1 as [|h [|l s2]].
  - cbn [app] in H. destruct t as [|a [|b t]]; cbn [List.length] in Ht;
      [discriminate H|discriminate H|lia].
  - cbn [app] in H. unfold readHex2 in H.
    change (hexValue (ch "%")) with (@None N) in H.
    destruct (hexValue h); discriminate H.
  - cbn [app] in H. unfold readHex2 in H.
    destruct (hexValue h); [|discriminate H].
    destruct (hexValue l); [|discriminate H].
    injection H as _ <-. now exists h, l, s2.
Qed.

Lemma readOctets_before_percent (t : jsstring) (j : nat) :
  (List.length t < 2)%nat ->
  forall (s2 : jsstring) (Bs : list N),
    readOctets j (s2 ++ ch "%" :: t) = Some Bs ->
    exists g s3, s2 = g ++ s3 /\ List.length g = (3 * j)%nat.
Proof.
  intros Ht. induction j as [|j IH]; intros s2 Bs H.
  - exists [], s2. split; reflexivity.
  - destruct s2 as [|c s2a].
    + cbn [app readOctets] in H. rewrite N.eqb_refl, (readHex2_short t Ht) in H.
      discriminate H.
    + cbn [app readOctets] in H.
      destruct (c =? ch "%"); [|discriminate H].
      destruct (readHex2 (s2a ++ ch "%" :: t)) as [[B s2']|] eqn:Hhex;
        [|discriminate H].
      apply (readHex2_before_percent _ _ _ _ Ht) in Hhex
        as (h & l & s2b & -> & ->).
      destruct (readOctets j (s2b ++ ch "%" :: t)) as [Bs'|] eqn:Hoct;
        [|discriminate H].
      apply IH in Hoct as (g & s3 & -> & Hg).
      exists (c :: h :: l :: g), s3. split; [reflexivity|].
      cbn [List.length]. lia.
Qed.

(** A [%] with fewer than two code units after it ends the decoding with
    a URIError, whatever stands before it. *)
Lemma Decode_truncated_escape (t : jsstring) :
  (List.length t < 2)%nat ->
  forall (n : nat) (s : jsstring),
    (List.length s <= n)%nat ->
    Decode 0 (s ++ ch "%" :: t) = Err URIError.
Proof.
  intros Ht. induction n as [|n IH]; intros s Hs.
  - destruct s; [|cbn [List.length] in Hs; lia].
    cbn [app]. now rewrite Decode_escape_unfold, (readHex2_short t Ht).
  - destruct s as [|c s1].
    + cbn [app]. now rewrite Decode_escape_unfold, (readHex2_short t Ht).
    + cbn [List.length] in Hs. cbn [app].
      destruct (c =? ch "%") eqn:Hc.
      * apply N.eqb_eq in Hc. subst c. rewrite Decode_escape_unfold.
        destruct (readHex2 (s1 ++ ch "%" :: t)) as [[B s2']|] eqn:Hhex;
          [|reflexivity].
        apply (readHex2_before_percent _ _ _ _ Ht) in Hhex
          as (h & l & s2 & -> & ->).
        cbn [List.length] in Hs.
        destruct (leadingOnes B) as [|[|[|[|[|k]]]]]; cbv beta iota;
          try reflexivity.
        -- change (Decode 2 ((h :: l :: s2) ++ ch "%" :: t))
             with (Decode 0 (s2 ++ ch "%" :: t)).
           rewrite IH by lia. reflexivity.
        -- destruct (readOctets 1 (s2 ++ ch "%" :: t)) as [Bs|] eqn:Hoct;
             [|reflexivity].
           destruct (utf8CodePoint (B :: Bs)); [|reflexivity].
           apply (readOctets_before_percent _ _ Ht) in Hoct
             as (g & s3 & -> & Hg).
           replace ((h :: l :: g ++ s3) ++ ch "%" :: t)
             with ((h :: l :: g) ++ s3 ++ ch "%" :: t)
             by (cbn [app]; now rewrite <- app_assoc).
           replace (2 + 3 * 1)%nat with (List.length (h :: l :: g))
             by (cbn [List.length]; lia).
           rewrite Decode_skip, IH; [reflexivity|].
           rewrite length_app in Hs. lia.
        -- destruct (readOctets 2 (s2 ++ ch "%" :: t)) as [Bs|] eqn:Hoct;
             [|reflexivity].
           destruct (utf8CodePoint (B :: Bs)); [|reflexivity].
           apply (readOctets_before_percent _ _ Ht) in Hoct
             as (g & s3 & -> & Hg).
           replace ((h :: l :: g ++ s3) ++ ch "%" :: t)
             with ((h :: l :: g) ++ s3 ++ ch "%" :: t)
             by (cbn [app]; now rewrite <- app_assoc).
           replace (2 + 3 * 2)%nat with (List.length (h :: l :: g))
             by (cbn [List.length]; lia).
           rewrite Decode_skip, IH; [reflexivity|].
           rewrite length_app in Hs. lia.
        -- destruct (readOctets 3 (s2 ++ ch "%" :: t)) as [Bs|] eqn:Hoct;
             [|reflexivity].
           destruct (utf8CodePoint (B :: Bs)); [|reflexivity].
           apply (readOctets_before_percent _ _ Ht) in Hoct
             as (g & s3 & -> & Hg).
           replace ((h :: l :: g ++ s3) ++ ch "%" :: t)
             with ((h :: l :: g) ++ s3 ++ ch "%" :: t)
             by (cbn [app]; now rewrite <- app_assoc).
           replace (2 + 3 * 3)%nat with (List.length (h :: l :: g))
             by (cbn [List.length]; lia).
           rewrite Decode_skip, IH; [reflexivity|].
           rewrite length_app in Hs. lia.
      * rewrite Decode_plain by exact Hc. rewrite IH by lia. reflexivity.
Qed.

(** X9.  A raw key with a [%] that is followed by fewer than two code
    units cannot be decoded, whatever stands before that [%]: the
    processing of its record throws a URIError before any effect, so that
    nothing is fetched and nothing is written for it. *)
Theorem truncated_escape_throws
        (env : Env) (destBucket : option jsstring) (r : S3EventRecord)
        (h : list Event) (s t : jsstring) :
  rawKey r = s ++ ch "%" :: t ->
  (List.length t < 2)%nat ->
  decodeKey (rawKey r) = Err URIError
  /\ processRecord env destBucket r h = (Err URIError, []).
Proof.
  intros Hraw Ht.
  assert (Hkey : decodeKey (rawKey r) = Err URIError).
  { unfold decodeKey, decodeURIComponent.
    rewrite Hraw, replace_plus_map, map_app. cbn [map].
    change (plusToSpace (ch "%")) with (ch "%").
    apply (Decode_truncated_escape (map plusToSpace t))
      with (n := List.length (map plusToSpace s));
      [now rewrite length_map|apply Nat.le_refl]. }
  split; [exact Hkey|].
  unfold processRecord, bind at 1, liftResult. fold (rawKey r).
  now rewrite Hkey.
Qed.

Lemma truncated_escape_throws_witness :
  decodeKey (str "report%20of%2") = Err URIError
  /\ processRecord envOk (Some (str "thumbs"))
                   (recordOf "pictures" "report%20of%2") []
     = (Err URIError, []).
Proof.
  apply (truncated_escape_throws
           envOk (Some (str "thumbs")) (recordOf "pictures" "report%20of%2")
           [] (str "report%20of") (str "2")).
  - reflexivity.
  - cbn. lia.
Defined.

(** ** The strings of the manifest *)

(** [JSON.stringify] writes a string without control character, quote,
    backslash and surrogate as it is, between two quotes. *)
Lemma QuoteJSONString_plain (s : jsstring) :
  forallb jsonPlain s = true ->
  QuoteJSONString s = 34 :: s ++ [34].
Proof.
  intros H. unfold QuoteJSONString. cbn [app]. f_equal. f_equal.
  induction s as [|c s IH]; [reflexivity|].
  cbn [forallb] in H. apply andb_true_iff in H as [Hc Hs].
  unfold jsonPlain in Hc.
  rewrite !andb_true_iff, !negb_true_iff, andb_false_iff in Hc.
  destruct Hc as (((H32 & H34) & H92) & Hsur).
  apply N.leb_le in H32.
  assert (Hlead : isLeadingSurrogate c = false).
  { unfold isLeadingSurrogate. apply andb_false_iff.
    destruct Hsur as [Hl | Hr]; [now left|right].
    apply N.leb_gt. apply N.leb_gt in Hr. lia. }
  assert (Htrail : isTrailingSurrogate c = false).
  { unfold isTrailingSurrogate. apply andb_false_iff.
    destruct Hsur as [Hl | Hr]; [left|now right].
    apply N.leb_gt. apply N.leb_gt in Hl. lia. }
  cbn [quoteChars].
  replace (c =? 8) with false by (symmetry; apply N.eqb_neq; lia).
  replace (c =? 9) with false by (symmetry; apply N.eqb_neq; lia).
  replace (c =? 10) with false by (symmetry; apply N.eqb_neq; lia).
  replace (c =? 12) with false by (symmetry; apply N.eqb_neq; lia).
  replace (c =? 13) with false by (symmetry; apply N.eqb_neq; lia).
  rewrite H34, H92.
  replace (c <? 32) with false by (symmetry; apply N.ltb_ge; lia).
  rewrite Hlead, Htrail, (IH Hs). reflexivity.
Qed.

(** The text of a manifest entry whose key and URL need no escape. *)
Lemma JSON_stringify_entry (destBucket : option jsstring)
      (destKey : jsstring) (size : N) :
  forallb jsonPlain destKey = true ->
  forallb jsonPlain (templateString destBucket) = true ->
  JSON_stringify (manifestEntry destBucket destKey size)
  = entryText destBucket destKey size.
Proof.
  intros Hkey Hbucket.
  assert (Hurl : forallb jsonPlain (urlOf destBucket destKey) = true).
  { unfold urlOf. rewrite !forallb_app, Hkey, Hbucket. reflexivity. }
  unfold manifestEntry, entryText.
  cbn [JSON_stringify map fst snd join].
  rewrite (QuoteJSONString_plain destKey Hkey).
  rewrite (QuoteJSONString_plain (urlOf destBucket destKey) Hurl).
  rewrite (QuoteJSONString_plain (str "key")) by reflexivity.
  rewrite (QuoteJSONString_plain (str "url")) by reflexivity.
  rewrite (QuoteJSONString_plain (str "width")) by reflexivity.
  rewrite (QuoteJSONString_plain (str "height")) by reflexivity.
  unfold urlOf, quoted.
  change (JSON_stringify (JNumber size)) with (Number_toString size).
  repeat (rewrite <- ?app_assoc; cbn [app]).
  reflexivity.
Qed.

Lemma destKeyOf_plain (base format : jsstring) (size : N) :
  In size sizes ->
  forallb jsonPlain base = true -> forallb jsonPlain format = true ->
  forallb jsonPlain (destKeyOf base size format) = true.
Proof.
  intros Hsize Hbase Hformat. unfold sizes in Hsize. cbn [In] in Hsize.
  destruct Hsize as [<- | [<- | [<- | []]]].
  - change (destKeyOf base 50 format) with (base ++ str "-50x50." ++ format).
    rewrite !forallb_app, Hbase, Hformat. reflexivity.
  - change (destKeyOf base 100 format) with (base ++ str "-100x100." ++ format).
    rewrite !forallb_app, Hbase, Hformat. reflexivity.
  - change (destKeyOf base 200 format) with (base ++ str "-200x200." ++ format).
    rewrite !forallb_app, Hbase, Hformat. reflexivity.
Qed.

(** X10.  When the decoded key of a record, the name of the destination
    bucket and the formats reported by the encoder hold no control
    character, quote, backslash or surrogate, the manifest that a record
    processed to its end writes is the text of a JSON array of three
    objects, for 50, 100 and 200 in this order, in which the key and the
    URL of every variant stand character for character. *)
Theorem manifest_text_plain
        (env : Env) (destBucket : option jsstring) (r : S3EventRecord)
        (h : list Event) (evs : list Event) (key : jsstring) :
  processRecord env destBucket r h = (Ok tt, evs) ->
  decodeKey (rawKey r) = Ok key ->
  forallb jsonPlain key = true ->
  forallb jsonPlain (templateString destBucket) = true ->
  (forall so, In so (resizeOutputs evs) ->
              forallb jsonPlain (out_info_format (snd so)) = true) ->
  exists o50 o100 o200,
    resizeOutputs evs = [(50, o50); (100, o100); (200, o200)]
    /\ map put_Body (manifestWrites evs)
       = [BodyString
            (str "["
             ++ entryText destBucket
                  (destKeyOf (fst (pathParts key)) 50 (out_info_format o50)) 50
             ++ str ","
             ++ entryText destBucket
                  (destKeyOf (fst (pathParts key)) 100 (out_info_format o100))
                  100
             ++ str ","
             ++ entryText destBucket
                  (destKeyOf (fst (pathParts key)) 200 (out_info_format o200))
                  200
             ++ str "]")].
Proof.
  intros Hrun Hkey Hplain Hbucket Hformats.
  apply processRecord_run, record_ok_run in Hrun
    as (key' & body & o50 & o100 & o200 & Hkey' & ->).
  rewrite Hkey in Hkey'. injection Hkey' as <-.
  exists o50, o100, o200. split; [reflexivity|].
  assert (Hbase : forallb jsonPlain (fst (pathParts key)) = true).
  { destruct (pathParts_base_prefix key) as (t & Ht & _).
    rewrite Ht, forallb_app in Hplain.
    now apply andb_true_iff in Hplain as [Hplain _]. }
  assert (H50 : forallb jsonPlain (out_info_format o50) = true)
    by (apply (Hformats (50, o50)); now left).
  assert (H100 : forallb jsonPlain (out_info_format o100) = true)
    by (apply (Hformats (100, o100)); right; now left).
  assert (H200 : forallb jsonPlain (out_info_format o200) = true)
    by (apply (Hformats (200, o200)); right; right; now left).
  change (map put_Body
              (manifestWrites
                 (runEvents destBucket
                    {| run_record := r; run_key := key; run_body := body;
                       run_out50 := o50; run_out100 := o100;
                       run_out200 := o200 |})))
    with [BodyString
            (JSON_stringify
               (JArray
                  [manifestEntry destBucket
                     (destKeyOf (fst (pathParts key)) 50 (out_info_format o50))
                     50;
                   manifestEntry destBucket
                     (destKeyOf (fst (pathParts key)) 100
                                (out_info_format o100)) 100;
                   manifestEntry destBucket
                     (destKeyOf (fst (pathParts key)) 200
                                (out_info_format o200)) 200]))].
  f_equal. f_equal.
  change (JSON_stringify (JArray ?l))
    with (str "[" ++ join (str ",") (map JSON_stringify l) ++ str "]").
  cbn [map join].
  rewrite !JSON_stringify_entry;
    try exact Hbucket;
    try (apply destKeyOf_plain; try assumption; unfold sizes; cbn [In]; tauto).
  rewrite <- !app_assoc. reflexivity.
Qed.

Lemma manifest_text_plain_witness :
  exists o50 o100 o200,
    resizeOutputs
      (snd (processRecord envOk (Some (str "thumbs"))
                          (recordOf "pictures" "my+cat.png") []))
    = [(50, o50); (100, o100); (200, o200)]
    /\ map put_Body
           (manifestWrites
              (snd (processRecord envOk (Some (str "thumbs"))
                                  (recordOf "pictures" "my+cat.png") [])))
       = [BodyString
            (str "["
             ++ entryText (Some (str "thumbs"))
                  (destKeyOf (fst (pathParts (str "my cat.png"))) 50
                             (out_info_format o50)) 50
             ++ str ","
             ++ entryText (Some (str "thumbs"))
                  (destKeyOf (fst (pathParts (str "my cat.png"))) 100
                             (out_info_format o100)) 100
             ++ str ","
             ++ entryText (Some (str "thumbs"))
                  (destKeyOf (fst (pathParts (str "my cat.png"))) 200
                             (out_info_format o200)) 200
             ++ str "]")].
Proof.
  apply (manifest_text_plain
           envOk (Some (str "thumbs")) (recordOf "pictures" "my+cat.png") []
           (snd (processRecord envOk (Some (str "thumbs"))
                               (recordOf "pictures" "my+cat.png") []))
           (str "my cat.png")).
  - reflexivity.
  - reflexivity.
  - reflexivity.
  - reflexivity.
  - intros so Hin. vm_compute in Hin.
    destruct Hin as [<- | [<- | [<- | []]]]; reflexivity.
Defined.

(** ** What the variants are made of, and where they may meet *)

Lemma in_turns d key base body res (outs : list (N * SharpOutput)) ev :
  In ev (flat_map (variantEvents d key base body res) outs) ->
  exists so,
    In so outs
    /\ (ev = EvResize body (fst so) (Ok (snd so))
        \/ ev = EvLog (LogText (key ++ str ": Creating "
                                    ++ destKeyOf base (fst so)
                                                 (out_info_format (snd so))))
        \/ ev = EvPutObject (variantPut d base so) res).
Proof.
  intros H. apply in_flat_map in H as (so & Hso & H). exists so.
  split; [exact Hso|]. unfold variantEvents in H.
  destruct H as [<- | [<- | [<- | []]]]; auto.
Qed.

(** X11.  Every resize of a record is applied to the object that the fetch
    of the record returned, for one of the sizes 50, 100 and 200, and every
    variant that is written carries the image of such a resize as the
    encoder returned it: no thumbnail is made from another thumbnail, and
    none is altered on its way to the bucket. *)
Theorem variants_from_source
        (env : Env) (destBucket : option jsstring) (r : S3EventRecord)
        (h : list Event) (res : Result unit) (evs : list Event) :
  processRecord env destBucket r h = (res, evs) ->
  (forall input size rres,
      In (EvResize input size rres) evs ->
      In size sizes /\ exists req, In (EvGetObject req (Ok input)) evs)
  /\ (forall req pres,
         In (EvPutObject req pres) evs -> isVariantWrite req = true ->
         exists input size out,
           In (EvResize input size (Ok out)) evs
           /\ put_Body req = BodyBuffer (out_data out)).
Proof.
  intros Hrun. apply processRecord_run in Hrun.
  destruct Hrun as [e0 Hk | key e0 Hk | key body outs size later e0 es' Hk Hs Hes'
                   | key body outs res Hk Hs].
  - split; intros; contradiction.
  - split.
    + intros input size rres [H | []]. discriminate H.
    + intros req pres [H | []]. discriminate H.
  - assert (Hsizes : forall so, In so outs -> In (fst so) sizes).
    { intros so Hso. rewrite Hs. apply in_or_app. left. now apply in_map. }
    assert (Hsize : In size sizes).
    { rewrite Hs. apply in_or_app. right. now left. }
    split.
    + intros input sz rres Hin.
      destruct Hin as [H | Hin]; [discriminate H|].
      apply in_app_or in Hin as [Hin | Hin].
      * apply in_turns in Hin as (so & Hso & [H | [H | H]]); inv H.
        split; [now apply Hsizes|]. eexists. now left.
      * destruct Hes' as [-> | (out & ->)]; unfold variantEvents in Hin.
        -- destruct Hin as [H | []]. inv H. split; [exact Hsize|].
           eexists. now left.
        -- destruct Hin as [H | [H | [H | []]]]; inv H.
           split; [exact Hsize|]. eexists. now left.
    + intros req pres Hin Hvar.
      destruct Hin as [H | Hin]; [discriminate H|].
      apply in_app_or in Hin as [Hin | Hin].
      * pose proof Hin as Hin'.
        apply in_turns in Hin' as (so & Hso & [H | [H | H]]); inv H.
        exists body, (fst so), (snd so). split; [|reflexivity].
        right. apply in_or_app. left.
        apply in_flat_map. exists so. split; [exact Hso|now left].
      * destruct Hes' as [-> | (out & ->)]; unfold variantEvents in Hin.
        -- destruct Hin as [H | []]. discriminate H.
        -- destruct Hin as [H | [H | [H | []]]]; inv H.
           exists body, size, out. split; [|reflexivity].
           right. apply in_or_app. right. now left.
  - assert (Hsizes : forall so, In so outs -> In (fst so) sizes).
    { intros so Hso. rewrite <- Hs. now apply in_map. }
    split.
    + intros input sz rres Hin.
      destruct Hin as [H | Hin]; [discriminate H|].
      apply in_app_or in Hin as [Hin | Hin].
      * apply in_turns in Hin as (so & Hso & [H | [H | H]]); inv H.
        split; [now apply Hsizes|]. eexists. now left.
      * destruct Hin as [H | [H | []]]; discriminate H.
    + intros req pres Hin Hvar.
      destruct Hin as [H | Hin]; [discriminate H|].
      apply in_app_or in Hin as [Hin | Hin].
      * pose proof Hin as Hin'.
        apply in_turns in Hin' as (so & Hso & [H | [H | H]]); inv H.
        exists body, (fst so), (snd so). split; [|reflexivity].
        right. apply in_or_app. left.
        apply in_flat_map. exists so. split; [exact Hso|now left].
      * destruct Hin as [H | [H | []]]; inv H. discriminate Hvar.
Qed.

Lemma variants_from_source_witness :
  In 100 sizes
  /\ exists req,
      In (EvGetObject req (Ok [255; 216; 255]))
         (snd (processRecord envSecondWriteFails (Some (str "thumbs"))
                             (recordOf "pictures" "vacation.jpg") [])).
Proof.
  apply (proj1 (variants_from_source
                  envSecondWriteFails (Some (str "thumbs"))
                  (recordOf "pictures" "vacation.jpg") []
                  (fst (processRecord envSecondWriteFails
                                      (Some (str "thumbs"))
                                      (recordOf "pictures" "vacation.jpg") []))
                  (snd (processRecord envSecondWriteFails
                                      (Some (str "thumbs"))
                                      (recordOf "pictures" "vacation.jpg") []))
                  (surjective_pairing _))
               [255; 216; 255] 100 (Ok (jpegOutput 100))).
  vm_compute. tauto.
Defined.


